(** * mrjob.tools.emr.s3_tmpwatch: deleting old files under an S3 path

    A shallow embedding of [mrjob/tools/emr/s3_tmpwatch.py] and the proofs
    of its specification.

    - [Py]        the Python values the tool computes with: exceptions,
                  [str] indexing and slicing, [int(str)], [timedelta],
                  naive [datetime] and the [%] formats of the log lines;
    - [process_time]  the duration parser (source lines 76-84);
    - [M]         the effects of a run: a store, a clock, the trace of
                  the calls made to the collaborators (EMRJobRunner,
                  boto, logging) and exceptions;
    - [S3_cleanup], [main]  the tool itself (source lines 32-74);
    - [Fake]      collaborators over a list of keys, to run the tool on
                  concrete inputs.

    The collaborators are not part of the tool: the theorems hold for
    every instance of [Collaborators], and say so.

    Conventions.  A Python call that may raise returns [exn + A], [inl e]
    for "raises e".  A [str] is a [string] of bytes (the tool is Python 2
    code and its strings come from the command line and from boto). *)

From Stdlib Require Import ZArith List String Ascii Bool Lia.
From Stdlib Require Import Decimal DecimalString DecimalPos.
Import ListNotations.

#[local] Open Scope string_scope.
#[local] Open Scope Z_scope.

(* ===================================================================== *)
(** * Python values *)
(* ===================================================================== *)

Module Py.

(** The exceptions that can leave the tool.  [ValueError] is what
    [int()] raises on a malformed numeral: it is the error the
    specification names MalformedDurationError.  [SystemExit] is raised
    by [OptionParser.error]; [StorageError] stands for whatever a storage
    collaborator raises (boto's S3ResponseError, a socket error, ...). *)
Inductive exn : Type :=
| IndexError
| ValueError
| OverflowError
| SystemExit (code : Z)
| StorageError (what : string).

Definition result (A : Type) : Type := (exn + A)%type.

Abbreviation ok := (@inr exn _).
Abbreviation raise := (@inl exn _).

Definition rbind {A B} (r : result A) (f : A -> result B) : result B :=
  match r with
  | inl e => inl e
  | inr a => f a
  end.

(** ** [str]: [s[i]] and [s[:j]] *)

Definition len (s : string) : Z := Z.of_nat (String.length s).

(** [s[i]]: a negative index counts from the end; out of range raises
    IndexError. *)
Definition getitem (s : string) (i : Z) : result ascii :=
  let i' := if i <? 0 then i + len s else i in
  if (i' <? 0) || (len s <=? i') then raise IndexError
  else match String.get (Z.to_nat i') s with
       | Some c => ok c
       | None => raise IndexError
       end.

(** [s[:j]]: a negative bound counts from the end; bounds are clipped,
    never an error. *)
Definition slice_to (s : string) (j : Z) : string :=
  let j' := if j <? 0 then Z.max 0 (j + len s) else Z.min j (len s) in
  String.substring 0 (Z.to_nat j') s.

(** ** [int(s)] for a byte string, base 10

    Optional white space on both sides, an optional sign, then one or
    more decimal digits; anything else raises ValueError.  This is the
    literal Python 2 reads: ASCII digits only, no underscores, no space
    between the sign and the digits. *)

Definition isspace (c : ascii) : bool :=
  let n := nat_of_ascii c in
  (Nat.eqb n 32) || ((Nat.leb 9 n) && (Nat.leb n 13)).

Fixpoint lstrip (s : string) : string :=
  match s with
  | String c s' => if isspace c then lstrip s' else s
  | EmptyString => EmptyString
  end.

Fixpoint rstrip (s : string) : string :=
  match s with
  | EmptyString => EmptyString
  | String c s' =>
      match rstrip s' with
      | EmptyString => if isspace c then EmptyString else String c EmptyString
      | t => String c t
      end
  end.

Definition strip (s : string) : string := rstrip (lstrip s).

(** One or more decimal digits, read as a natural number. *)
Definition digits (s : string) : option Z :=
  match s with
  | EmptyString => None
  | _ => option_map (fun d => Z.of_N (N.of_uint d)) (NilEmpty.uint_of_string s)
  end.

Definition int_literal (s : string) : option Z :=
  match strip s with
  | EmptyString => None
  | String c s' =>
      if Ascii.eqb c "-" then option_map Z.opp (digits s')
      else if Ascii.eqb c "+" then digits s'
      else digits (String c s')
  end.

Definition int (s : string) : result Z :=
  match int_literal s with
  | Some n => ok n
  | None => raise ValueError
  end.

(** ** [%d], [%02d], [%06d] *)

Definition fmt_d (n : Z) : string := NilZero.string_of_int (Z.to_int n).

Fixpoint zeros (k : nat) : string :=
  match k with
  | O => EmptyString
  | S k' => String "0" (zeros k')
  end.

(** [%0wd] for a non-negative [n]: padded with zeros to width [w]. *)
Definition fmt_0d (w : nat) (n : Z) : string :=
  let s := fmt_d n in
  zeros (w - String.length s) ++ s.

(** ** [datetime.timedelta]

    A duration is stored normalised: [0 <= seconds < 86400],
    [0 <= microseconds < 1000000], [-999999999 <= days <= 999999999]. *)

Record timedelta : Type := mk_timedelta {
  days : Z;
  seconds : Z;
  microseconds : Z
}.

Definition us_per_second : Z := 1000000.
Definition seconds_per_day : Z := 86400.
Definition us_per_day : Z := 86400000000.
Definition max_delta_days : Z := 999999999.

Definition wf (d : timedelta) : Prop :=
  - max_delta_days <= days d <= max_delta_days /\
  0 <= seconds d < seconds_per_day /\
  0 <= microseconds d < us_per_second.

(** The length of a duration in microseconds. *)
Definition total_us (d : timedelta) : Z :=
  days d * us_per_day + seconds d * us_per_second + microseconds d.

(** The carry from microseconds into seconds into days ([divmod]
    rounds towards minus infinity, as [Z.div] and [Z.modulo] do for a
    positive divisor). *)
Definition normalize (d s us : Z) : timedelta :=
  let s1 := s + us / us_per_second in
  {| days := d + s1 / seconds_per_day;
     seconds := s1 mod seconds_per_day;
     microseconds := us mod us_per_second |}.

(** [timedelta(days=d, hours=h, minutes=m)]: the keyword arguments the
    tool uses, each defaulting to 0.  Raises OverflowError when the
    normalised number of days is out of range. *)
Definition timedelta_new (d h m : Z) : result timedelta :=
  let t := normalize d (h * 3600 + m * 60) 0 in
  if Z.abs (days t) <=? max_delta_days then ok t else raise OverflowError.

(** [a > b] on durations: the fields are compared in order. *)
Definition td_gt (a b : timedelta) : bool :=
  match days a ?= days b with
  | Gt => true
  | Lt => false
  | Eq => match seconds a ?= seconds b with
          | Gt => true
          | Lt => false
          | Eq => microseconds b <? microseconds a
          end
  end.

(** [str(d)]: ["[D day[s], ]H:MM:SS[.UUUUUU]"]. *)
Definition td_str (d : timedelta) : string :=
  let ss := seconds d mod 60 in
  let mm := (seconds d / 60) mod 60 in
  let hh := (seconds d / 60) / 60 in
  let clock :=
    fmt_d hh ++ ":" ++ fmt_0d 2 mm ++ ":" ++ fmt_0d 2 ss ++
    (if microseconds d =? 0 then "" else "." ++ fmt_0d 6 (microseconds d)) in
  if days d =? 0 then clock
  else fmt_d (days d) ++ " day" ++
       (if Z.abs (days d) =? 1 then "" else "s") ++ ", " ++ clock.

(** [repr(d)] ([%r]), as Python 2 prints it. *)
Definition td_repr (d : timedelta) : string :=
  if negb (microseconds d =? 0) then
    "datetime.timedelta(" ++ fmt_d (days d) ++ ", " ++ fmt_d (seconds d)
      ++ ", " ++ fmt_d (microseconds d) ++ ")"
  else if negb (seconds d =? 0) then
    "datetime.timedelta(" ++ fmt_d (days d) ++ ", " ++ fmt_d (seconds d) ++ ")"
  else
    "datetime.timedelta(" ++ fmt_d (days d) ++ ")".

(** ** Naive [datetime]

    An instant without time zone, counted in microseconds from
    0001-01-01T00:00:00.  The difference of two instants is the
    normalised duration between them. *)

Definition datetime : Type := Z.

Definition dt_sub (a b : datetime) : timedelta := normalize 0 0 (a - b).

(** [dt.replace(tzinfo=None)] on an instant that carries no zone. *)
Definition replace_tzinfo_None (a : datetime) : datetime := a.

End Py.

Import Py.

(* ===================================================================== *)
(** * The duration parser *)
(* ===================================================================== *)

Definition DEFAULT_TIME_OLD : string := "30d".

(** Source lines 76-84.  [time[-1]] is evaluated first (and again in
    each [elif]); [timedelta] and [int] raise through. *)
Definition process_time (time : string) : result timedelta :=
  rbind (getitem time (-1)) (fun c =>
  if Ascii.eqb c "m" then
    rbind (int (slice_to time (-1))) (fun n => timedelta_new 0 0 n)
  else if Ascii.eqb c "h" then
    rbind (int (slice_to time (-1))) (fun n => timedelta_new 0 n 0)
  else if Ascii.eqb c "d" then
    rbind (int (slice_to time (-1))) (fun n => timedelta_new n 0 0)
  else
    rbind (int time) (fun n => timedelta_new 0 n 0)).

(** ** The parser as the specification words it

    A duration is an integer magnitude and a unit; the unit is read off
    the final character, hours when there is none. *)

Inductive Unit : Type := Minutes | Hours | Days.

Definition suffix (u : Unit) : string :=
  match u with
  | Minutes => "m"
  | Hours => "h"
  | Days => "d"
  end.

Definition unit_us (u : Unit) : Z :=
  match u with
  | Minutes => 60 * us_per_second
  | Hours => 3600 * us_per_second
  | Days => us_per_day
  end.

Definition unit_of_char (c : ascii) : option Unit :=
  if Ascii.eqb c "m" then Some Minutes
  else if Ascii.eqb c "h" then Some Hours
  else if Ascii.eqb c "d" then Some Days
  else None.

(** The unit of [body + c]: that of [c], hours by default. *)
Definition unit_of (c : ascii) : Unit :=
  match unit_of_char c with
  | Some u => u
  | None => Hours
  end.

(** The numeral of [body + c]: [body] under a unit suffix, else all of
    the string. *)
Definition numeral_of (body : string) (c : ascii) : string :=
  match unit_of_char c with
  | Some _ => body
  | None => body ++ String c ""
  end.

(** The numeral of any string; the empty string has none. *)
Definition leading_numeral (s : string) : string :=
  match getitem s (-1) with
  | inr c => numeral_of (slice_to s (-1)) c
  | inl _ => s
  end.

(** [n] units as a duration, out of range beyond [max_delta_days]. *)
Definition duration (u : Unit) (n : Z) : result timedelta :=
  let us := n * unit_us u in
  if Z.abs (us / us_per_day) <=? max_delta_days
  then ok (normalize 0 0 us)
  else raise OverflowError.

(** ** Shapes of strings used in the proofs *)

Fixpoint nospace (s : string) : bool :=
  match s with
  | EmptyString => true
  | String c s' => negb (isspace c) && nospace s'
  end.

Definition isdigit (c : ascii) : bool :=
  Nat.leb 48 (nat_of_ascii c) && Nat.leb (nat_of_ascii c) 57.

Fixpoint only_digits (s : string) : bool :=
  match s with
  | EmptyString => true
  | String c s' => isdigit c && only_digits s'
  end.

(* ===================================================================== *)
(** * The effects of a run *)
(* ===================================================================== *)

(** A key of a bucket as boto lists it: the bucket it lives in, its name
    inside the bucket and its [last_modified] attribute, a string. *)
Record S3Key : Type := mk_key {
  key_bucket : string;
  name : string;
  last_modified : string
}.

(** The URI of a key, [s3://bucket/name]. *)
Definition key_uri (k : S3Key) : string :=
  "s3://" ++ key_bucket k ++ "/" ++ name k.

(** [conf_path]: [None] by default, [False] with [--no-conf], a path with
    [-c]. *)
Inductive ConfPath : Type :=
| ConfDefault
| ConfDisabled
| ConfFile (path : string).

Inductive LogLevel : Type := DEBUG | INFO | WARNING | ERROR | CRITICAL.

(** The two messages the tool logs.  A record keeps the arguments of the
    [%] format; [render] is the string handed to [log.info]. *)
Inductive LogRecord : Type :=
| LogCleanup (glob_path : string) (time_old : timedelta)
| LogDeleting (key_name : string) (time_delta : timedelta).

Definition render (r : LogRecord) : string :=
  match r with
  | LogCleanup glob_path time_old =>
      "Deleting all files in " ++ glob_path ++ " that are older than "
        ++ td_repr time_old ++ " days old"
  | LogDeleting key_name time_delta =>
      "Deleting " ++ key_name ++ "; is " ++ td_str time_delta ++ " old"
  end.

(** What a run does to the outside, in order: every call to a
    collaborator, with the answer where the tool goes on to use it. *)
Inductive Event : Type :=
| EvLogToStream (logger : string) (level : option LogLevel) (debug : bool)
                                           (* log_to_stream(name=..., ...) *)
| EvRunner (conf_path : ConfPath)          (* EMRJobRunner(conf_path=...) *)
| EvMakeS3Conn                             (* runner.make_s3_conn() *)
| EvLs (glob_path : string)                (* runner.ls(glob_path) *)
| EvGetBucket (bucket_name : string)       (* s3_conn.get_bucket(...) *)
| EvList (bucket_name key_name : string) (keys : list S3Key)
                                           (* bucket.list(key_name) *)
| EvNow (t : datetime)                     (* datetime.now() *)
| EvLogInfo (r : LogRecord)                (* log.info(...) *)
| EvDelete (key : S3Key).                  (* key.delete() *)

(** The collaborators the tool is written against.  [Store] is the
    state of the object store; only [key_delete] changes it.  Every
    storage call may raise.  [wall_clock n] is what the [n]-th call of
    [datetime.now()] returns. *)
Class Collaborators (Store : Type) : Type := {
  runner_init : Store -> ConfPath -> result unit;
  make_s3_conn : Store -> result unit;
  runner_ls : Store -> string -> result (list string);
  parse_s3_uri : string -> result (string * string);
  get_bucket : Store -> string -> result unit;
  bucket_list : Store -> string -> string -> result (list S3Key);
  key_delete : Store -> S3Key -> result Store;
  strptime_ISO8601 : string -> result datetime;
  wall_clock : nat -> datetime
}.

Record World (Store : Type) : Type := mk_world {
  store : Store;
  ticks : nat            (* how often the clock has been read *)
}.

Arguments mk_world {Store} _ _.
Arguments store {Store} _.
Arguments ticks {Store} _.

(** ** The monad: state, trace and exceptions *)

Definition M (Store A : Type) : Type :=
  World Store -> list Event * World Store * result A.

Definition ret {Store A} (a : A) : M Store A :=
  fun w => ([], w, ok a).

Definition bind {Store A B} (m : M Store A) (f : A -> M Store B) : M Store B :=
  fun w =>
    match m w with
    | (evs, w1, inl e) => (evs, w1, inl e)
    | (evs, w1, inr a) =>
        match f a w1 with
        | (evs', w2, r) => ((evs ++ evs')%list, w2, r)
        end
    end.

Declare Scope run_scope.
Delimit Scope run_scope with run.
Notation "x <- m ;; k" := (bind m (fun x => k))
  (at level 61, m at next level, right associativity) : run_scope.
Notation "' pat <- m ;; k" := (bind m (fun x => match x with pat => k end))
  (at level 61, pat pattern, m at next level, right associativity) : run_scope.
Notation "m ;; k" := (bind m (fun _ => k))
  (at level 61, right associativity) : run_scope.
#[local] Open Scope run_scope.

Definition emit {Store} (ev : Event) : M Store unit :=
  fun w => ([ev], w, ok tt).

Definition lift {Store A} (r : result A) : M Store A :=
  fun w => ([], w, r).

(** [for x in xs: body(x)] over the items an iterator has produced. *)
Fixpoint for_each {Store A} (xs : list A) (body : A -> M Store unit)
  : M Store unit :=
  match xs with
  | [] => ret tt
  | x :: xs' => body x ;; for_each xs' body
  end.

Definition events {Store A} (o : list Event * World Store * result A)
  : list Event := fst (fst o).
Definition final {Store A} (o : list Event * World Store * result A)
  : World Store := snd (fst o).
Definition outcome {Store A} (o : list Event * World Store * result A)
  : result A := snd o.

Section Tool.

Context {Store : Type} {C : Collaborators Store}.

(** ** Calls to the collaborators *)

Definition call {A} (ev : Event) (f : Store -> result A) : M Store A :=
  fun w => ([ev], w, f (store w)).

Definition EMRJobRunner (conf_path : ConfPath) : M Store unit :=
  call (EvRunner conf_path) (fun s => runner_init s conf_path).

Definition runner_make_s3_conn : M Store unit :=
  call EvMakeS3Conn make_s3_conn.

(** [runner.ls(glob_path)]: the paths are taken when the loop starts. *)
Definition ls (glob_path : string) : M Store (list string) :=
  call (EvLs glob_path) (fun s => runner_ls s glob_path).

Definition s3_conn_get_bucket (bucket_name : string) : M Store string :=
  call (EvGetBucket bucket_name)
       (fun s => rbind (get_bucket s bucket_name) (fun _ => ok bucket_name)).

(** The listing is taken when the loop starts. *)
Definition list_keys (bucket key_name : string) : M Store (list S3Key) :=
  fun w =>
    match bucket_list (store w) bucket key_name with
    | inl e => ([EvList bucket key_name []], w, inl e)
    | inr keys => ([EvList bucket key_name keys], w, ok keys)
    end.

Definition datetime_now : M Store datetime :=
  fun w =>
    let t := wall_clock (ticks w) in
    ([EvNow t], mk_world (store w) (S (ticks w)), ok t).

Definition log_info (r : LogRecord) : M Store unit := emit (EvLogInfo r).

(** [key.delete()]: the call is issued, then the store changes unless
    the call raises. *)
Definition delete (key : S3Key) : M Store unit :=
  fun w =>
    match key_delete (store w) key with
    | inl e => ([EvDelete key], w, inl e)
    | inr s' => ([EvDelete key], mk_world s' (ticks w), ok tt)
    end.

(** [log_to_stream(name=logger, level=level, debug=debug)], with
    [level=None] and [debug=False] when not given. *)
Definition log_to_stream (logger : string) (level : option LogLevel)
    (debug : bool) : M Store unit :=
  emit (EvLogToStream logger level debug).

(** [option_parser.error(msg)]: prints the usage and exits with 2. *)
Definition option_parser_error {A} (msg : string) : M Store A :=
  lift (raise (SystemExit 2)).

(** ** [S3_cleanup] (source lines 52-74) *)

(** Lines 67-74, the body of the loop over the keys. *)
Definition S3_cleanup_key (time_old : timedelta) (dry_run : bool)
    (key : S3Key) : M Store unit :=
  last_modified <- lift (strptime_ISO8601 (last_modified key)) ;;
  let last_modified := replace_tzinfo_None last_modified in
  now <- datetime_now ;;
  let time_delta := dt_sub now last_modified in
  if td_gt time_delta time_old then
    (* Delete it *)
    log_info (LogDeleting (name key) time_delta) ;;
    if negb dry_run then delete key else ret tt
  else ret tt.

(** Lines 63-66, the body of the loop over the paths. *)
Definition S3_cleanup_path (time_old : timedelta) (dry_run : bool)
    (path : string) : M Store unit :=
  '(bucket_name, key_name) <- lift (parse_s3_uri path) ;;
  bucket <- s3_conn_get_bucket bucket_name ;;
  keys <- list_keys bucket key_name ;;
  for_each keys (S3_cleanup_key time_old dry_run).

Definition S3_cleanup (glob_path : string) (time_old : timedelta)
    (dry_run : bool) (conf_path : ConfPath) : M Store unit :=
  EMRJobRunner conf_path ;;
  runner_make_s3_conn ;;
  log_info (LogCleanup glob_path time_old) ;;
  paths <- ls glob_path ;;
  for_each paths (S3_cleanup_path time_old dry_run).

(** ** [main] (source lines 32-50), after [parse_args] *)

Record Options : Type := mk_options {
  verbose : bool;
  quiet : bool;
  conf_path : ConfPath;
  time : string;
  test : bool
}.

Definition main (options : Options) (args : list string) : M Store unit :=
  (match args with
   | [] => option_parser_error "Please specify one or more URIs"
   | _ => ret tt
   end) ;;
  (* set up logging *)
  (if negb (quiet options)
   then log_to_stream "mrjob" None (verbose options)
   else ret tt) ;;
  (* suppress No handlers could be found for logger "boto" message *)
  log_to_stream "boto" (Some CRITICAL) false ;;
  time_old <- lift (process_time (time options)) ;;
  for_each args (fun path =>
    S3_cleanup path time_old (test options) (conf_path options)).

End Tool.

(* ===================================================================== *)
(** * What a trace shows *)
(* ===================================================================== *)

(** The keys [key.delete()] was called on, in order. *)
Definition deletes (evs : list Event) : list S3Key :=
  flat_map (fun ev => match ev with EvDelete k => [k] | _ => [] end) evs.

(** The keys the listings produced, in order. *)
Definition listed (evs : list Event) : list S3Key :=
  flat_map (fun ev => match ev with EvList _ _ ks => ks | _ => [] end) evs.

(** The readings of the clock, in order. *)
Definition nows (evs : list Event) : list datetime :=
  flat_map (fun ev => match ev with EvNow t => [t] | _ => [] end) evs.

(** The records logged, in order. *)
Definition logs (evs : list Event) : list LogRecord :=
  flat_map (fun ev => match ev with EvLogInfo r => [r] | _ => [] end) evs.

(** The names of the keys reported as deleted (or as to be deleted). *)
Definition candidates (evs : list Event) : list string :=
  flat_map (fun r => match r with LogDeleting n _ => [n] | _ => [] end)
           (logs evs).

(** The calls that reach the object store. *)
Definition is_storage_call (ev : Event) : bool :=
  match ev with
  | EvMakeS3Conn | EvLs _ | EvGetBucket _ | EvList _ _ _ | EvDelete _ => true
  | EvLogToStream _ _ _ | EvRunner _ | EvNow _ | EvLogInfo _ => false
  end.

Definition storage_calls (evs : list Event) : list Event :=
  filter is_storage_call evs.

(** Every key of a listing is examined with one reading of the clock:
    the [i]-th key listed goes with the [i]-th reading. *)
Definition visits (evs : list Event) : list (S3Key * datetime) :=
  combine (listed evs) (nows evs).

Section Decision.

Context {Store : Type} {C : Collaborators Store}.

(** The test of source line 70 for a key last modified at [lm] and
    examined at [now]. *)
Definition too_old (time_old : timedelta) (now lm : datetime) : bool :=
  td_gt (dt_sub now (replace_tzinfo_None lm)) time_old.

(** The age of an object, in microseconds. *)
Definition age (now lm : datetime) : Z := now - lm.

Definition qualifies (time_old : timedelta) (v : S3Key * datetime) : bool :=
  match strptime_ISO8601 (last_modified (fst v)) with
  | inr lm => too_old time_old (snd v) lm
  | inl _ => false
  end.

(** The time since a key was last modified, at the reading [snd v]. *)
Definition elapsed (v : S3Key * datetime) : timedelta :=
  match strptime_ISO8601 (last_modified (fst v)) with
  | inr lm => dt_sub (snd v) (replace_tzinfo_None lm)
  | inl _ => normalize 0 0 0
  end.

(** The record logged for a key found too old at [snd v]. *)
Definition report (v : S3Key * datetime) : LogRecord :=
  LogDeleting (name (fst v)) (elapsed v).

End Decision.

(* ===================================================================== *)
(** * Properties of computations *)
(* ===================================================================== *)

Section Properties.

Context {Store : Type} {C : Collaborators Store}.

(** A computation that leaves the store as it found it and calls
    [key.delete()] on nothing, whatever the world it starts in. *)
Definition read_only {A} (m : M Store A) : Prop :=
  forall w, store (final (m w)) = store w /\ deletes (events (m w)) = [].

(** A computation that takes the same course whatever the clock shows:
    started on the same store, it produces the same listings, reads the
    clock as often, ends the same way and leaves the same store. *)
Definition clock_blind {A} (m : M Store A) : Prop :=
  forall w1 w2, store w1 = store w2 ->
    listed (events (m w1)) = listed (events (m w2))
    /\ List.length (nows (events (m w1))) = List.length (nows (events (m w2)))
    /\ outcome (m w1) = outcome (m w2)
    /\ store (final (m w1)) = store (final (m w2)).

(** A run from [w] that accounts for what it did: it read the clock
    once for each key it examined, in the order the listings gave them,
    and every key listed was examined when the run completed; the
    records logged are the reports of the visits found too old, and the
    deletions, unless the run is dry, their keys. *)
Definition accounted (time_old : timedelta) (dry_run : bool) {A}
    (w : World Store) (o : list Event * World Store * result A) : Prop :=
  (List.length (nows (events o)) <= List.length (listed (events o)))%nat
  /\ ((exists a, outcome o = inr a) ->
      List.length (listed (events o)) = List.length (nows (events o)))
  /\ logs (events o)
     = map report (filter (qualifies time_old) (visits (events o)))
  /\ deletes (events o)
     = (if dry_run then []
        else map fst (filter (qualifies time_old) (visits (events o))))
  /\ ticks (final o) = (ticks w + List.length (nows (events o)))%nat.

(** The events of [S3_cleanup] before its loop. *)
Definition preamble (glob_path : string) (time_old : timedelta)
    (conf : ConfPath) : list Event :=
  [EvRunner conf; EvMakeS3Conn; EvLogInfo (LogCleanup glob_path time_old);
   EvLs glob_path].

(** The storage answers that make a path resolve to no object: it is
    an S3 URI, its bucket is there and the listing under it is empty. *)
Definition lists_nothing (s : Store) (path : string) : Prop :=
  exists bucket_name key_name,
    parse_s3_uri path = ok (bucket_name, key_name)
    /\ get_bucket s bucket_name = ok tt
    /\ bucket_list s bucket_name key_name = ok [].

End Properties.

(* ===================================================================== *)
(** * A store to run the tool on

    Collaborators over a list of keys, for running the tool on concrete
    inputs: [ls] yields the URI of every key whose URI starts with the
    given path, [bucket.list] the keys of the bucket whose name starts
    with the prefix, [delete] removes the key, and [last_modified] is
    read as [datetime.strptime] reads the format [%Y-%m-%dT%H:%M:%SZ].
    The clock starts at [t0] and advances by [step] at each reading. *)
(* ===================================================================== *)

Module Fake.

Definition Store : Type := list S3Key.

Definition same_key (a b : S3Key) : bool :=
  String.eqb (key_bucket a) (key_bucket b) && String.eqb (name a) (name b).

Definition parse_uri (uri : string) : result (string * string) :=
  if String.prefix "s3://" uri then
    let rest := String.substring 5 (String.length uri - 5) uri in
    match String.index 0 "/" rest with
    | Some i =>
        ok (String.substring 0 i rest,
            String.substring (S i) (String.length rest - S i) rest)
    | None => raise ValueError
    end
  else raise ValueError.

Definition is_leap (y : Z) : bool :=
  ((y mod 4 =? 0) && negb (y mod 100 =? 0)) || (y mod 400 =? 0).

Definition days_before_year (y : Z) : Z :=
  let p := y - 1 in p * 365 + p / 4 - p / 100 + p / 400.

Definition days_in_month (y m : Z) : Z :=
  if m =? 2 then (if is_leap y then 29 else 28)
  else if (m =? 4) || (m =? 6) || (m =? 9) || (m =? 11) then 30 else 31.

Fixpoint days_before_month (y : Z) (m : nat) : Z :=
  match m with
  | O => 0
  | S m' => days_before_month y m' + days_in_month y (Z.of_nat m)
  end.

(** [datetime.strptime(s, '%Y-%m-%dT%H:%M:%SZ')], the format boto names
    ISO8601, as Python 2 reads it.  The format is matched as a regular
    expression, ignoring case, against the whole string: [%Y] is four
    digits; [%m], [%d], [%H], [%M] and [%S] are one or two digits within
    1-12, 1-31, 0-23, 0-59 and 0-61 ([%d] also a space and a digit);
    each field runs up to the separator that follows it.  The date must
    then exist, from year 1 on, and, to become a [datetime], the second
    must be below 60.  Every failure is a ValueError. *)

(** The field before the first separator, and what follows it. *)
Fixpoint until (is_sep : ascii -> bool) (s : string)
  : option (string * string) :=
  match s with
  | EmptyString => None
  | String c s' =>
      if is_sep c then Some (EmptyString, s')
      else match until is_sep s' with
           | Some (f, rest) => Some (String c f, rest)
           | None => None
           end
  end.

Definition is_char (c x : ascii) : bool := Ascii.eqb x c.

Definition is_letter (upper lower x : ascii) : bool :=
  Ascii.eqb x upper || Ascii.eqb x lower.

(** One or two digits, of a value from [lo] to [hi]. *)
Definition number (lo hi : Z) (f : string) : option Z :=
  if Nat.leb 1 (String.length f) && Nat.leb (String.length f) 2 then
    match Py.digits f with
    | Some v => if (lo <=? v) && (v <=? hi) then Some v else None
    | None => None
    end
  else None.

Definition day_number (f : string) : option Z :=
  match f with
  | String " " f' =>
      if Nat.eqb (String.length f') 1 then number 1 9 f' else None
  | _ => number 1 31 f
  end.

Definition year_number (f : string) : option Z :=
  if Nat.eqb (String.length f) 4 then Py.digits f else None.

Definition obind {A B} (o : option A) (f : A -> option B) : option B :=
  match o with
  | Some a => f a
  | None => None
  end.

(** The six fields of a time stamp the format matches. *)
Definition fields (s : string) : option (Z * Z * Z * Z * Z * Z) :=
  obind (until (is_char "-") s) (fun '(fy, r1) =>
  obind (until (is_char "-") r1) (fun '(fm, r2) =>
  obind (until (is_letter "T" "t") r2) (fun '(fd, r3) =>
  obind (until (is_char ":") r3) (fun '(fH, r4) =>
  obind (until (is_char ":") r4) (fun '(fM, r5) =>
  obind (until (is_letter "Z" "z") r5) (fun '(fS, r6) =>
  match r6 with
  | EmptyString =>
      obind (year_number fy) (fun y =>
      obind (number 1 12 fm) (fun mo =>
      obind (day_number fd) (fun d =>
      obind (number 0 23 fH) (fun h =>
      obind (number 0 59 fM) (fun mi =>
      obind (number 0 61 fS) (fun sec =>
      Some (y, mo, d, h, mi, sec)))))))
  | _ => None
  end)))))).

Definition strptime (s : string) : result datetime :=
  match fields s with
  | Some (y, mo, d, h, mi, sec) =>
      if (1 <=? y) && (d <=? days_in_month y mo) && (sec <=? 59)
      then
        let ordinal :=
          days_before_year y + days_before_month y (Z.to_nat (mo - 1))
          + (d - 1) in
        ok ((ordinal * 86400 + h * 3600 + mi * 60 + sec) * 1000000)
      else raise ValueError
  | None => raise ValueError
  end.

#[export] Instance collaborators (t0 step : Z) : Collaborators Store := {
  runner_init := fun _ _ => ok tt;
  make_s3_conn := fun _ => ok tt;
  runner_ls := fun s glob_path =>
    ok (map key_uri (filter (fun k => String.prefix glob_path (key_uri k)) s));
  parse_s3_uri := parse_uri;
  get_bucket := fun _ _ => ok tt;
  bucket_list := fun s bucket key_name =>
    ok (filter (fun k => String.eqb (key_bucket k) bucket
                         && String.prefix key_name (name k)) s);
  key_delete := fun s k => ok (filter (fun k' => negb (same_key k k')) s);
  strptime_ISO8601 := strptime;
  wall_clock := fun n => t0 + step * Z.of_nat n
}.

(** The instant a time stamp denotes. *)
Definition instant (s : string) : datetime :=
  match strptime s with
  | inr t => t
  | inl _ => 0
  end.

Definition second : Z := 1000000.
Definition hour : Z := 3600 * second.

(** The scenario of the specification: under [s3://bucket/tmp/], [a]
    is 40 days old and [b] 10 days old when the run starts. *)
Definition a : S3Key := mk_key "bucket" "tmp/a" "2011-01-01T00:00:00Z".
Definition b : S3Key := mk_key "bucket" "tmp/b" "2011-01-31T00:00:00Z".
Definition start : datetime := instant "2011-02-10T00:00:00Z".
Definition thirty_days : timedelta := mk_timedelta 30 0 0.

Definition glob : string := "s3://bucket/tmp/".
Definition world (s : Store) : World Store := mk_world s O.

(** The run starts at [start]; the clock advances a second a reading. *)
Definition ticking : Collaborators Store := collaborators start second.

(** The run starts a second before [a] turns 30 days old; the clock
    advances an hour a reading. *)
Definition on_the_verge : Collaborators Store :=
  collaborators (instant "2011-01-30T23:59:59Z") hour.

End Fake.

(* ===================================================================== *)
(** * Further notions *)
(* ===================================================================== *)

(** The magnitudes [timedelta] accepts for a unit: the duration must
    lie within [max_delta_days] days on either side. *)
Definition in_range (u : Unit) (n : Z) : bool :=
  (- max_delta_days * us_per_day <=? n * unit_us u)
  && (n * unit_us u <? (max_delta_days + 1) * us_per_day).

(** The seconds of a unit. *)
Definition unit_seconds (u : Unit) : Z :=
  match u with
  | Minutes => 60
  | Hours => 3600
  | Days => 86400
  end.

(** A string of white space only. *)
Fixpoint allspace (s : string) : bool :=
  match s with
  | EmptyString => true
  | String c s' => isspace c && allspace s'
  end.

(** The options when none is given on the command line
    ([make_option_parser], source lines 86-113): the [default=] of each
    [add_option], and [None] for [conf_path]. *)
Definition default_options : Options :=
  mk_options false false ConfDefault DEFAULT_TIME_OLD false.

Section Further.

Context {Store : Type} {C : Collaborators Store}.

(** The store after a call of [key.delete()]: changed when the call
    returns, as it was when it raises. *)
Definition apply_delete (s : Store) (k : S3Key) : Store :=
  match key_delete s k with
  | inr s' => s'
  | inl _ => s
  end.

Definition apply_deletes (ks : list S3Key) (s : Store) : Store :=
  fold_left apply_delete ks s.

(** The keys of one listing found too old when they are examined one
    after the other, each with one reading of the clock, the first with
    reading number [tick]. *)
Fixpoint old_keys (time_old : timedelta) (keys : list S3Key) (tick : nat)
  : list S3Key :=
  match keys with
  | [] => []
  | key :: keys' =>
      if qualifies time_old (key, wall_clock tick)
      then key :: old_keys time_old keys' (S tick)
      else old_keys time_old keys' (S tick)
  end.

(** The keys the store [s] lists for a path: those under the key name
    of the URI, in its bucket. *)
Definition listing (s : Store) (path : string) : result (list S3Key) :=
  rbind (parse_s3_uri path) (fun '(bucket_name, key_name) =>
  rbind (get_bucket s bucket_name) (fun _ =>
  bucket_list s bucket_name key_name)).

(** The keys found too old over [paths], path after path: each path is
    listed on the store as the paths before it have left it, which in a
    dry run is the store [s] itself and otherwise [s] without the keys
    found too old so far; a path that cannot be listed ends it. *)
Fixpoint old_keys_of_paths (time_old : timedelta) (dry_run : bool)
    (paths : list string) (s : Store) (tick : nat) : list S3Key :=
  match paths with
  | [] => []
  | path :: paths' =>
      match listing s path with
      | inl _ => []
      | inr keys =>
          let found := old_keys time_old keys tick in
          (found
           ++ old_keys_of_paths time_old dry_run paths'
                (if dry_run then s else apply_deletes found s)
                (tick + List.length keys))%list
      end
  end.

(** The objects under [glob_path] that are too old, read off the store
    and the clock of the world [w]: for each path [ls] yields, each key
    of its listing whose age, at the reading of the clock that falls to
    it, exceeds the threshold. *)
Definition old_objects (time_old : timedelta) (dry_run : bool)
    (glob_path : string) (w : World Store) : list S3Key :=
  match runner_ls (store w) glob_path with
  | inl _ => []
  | inr paths => old_keys_of_paths time_old dry_run paths (store w) (ticks w)
  end.

(** The keys a trace shows were found too old. *)
Definition found (time_old : timedelta) (evs : list Event) : list S3Key :=
  map fst (filter (qualifies time_old) (visits evs)).


(** A trace in which every call of [key.delete()] comes right after
    the record that reports the key. *)
Definition announced (evs : list Event) : Prop :=
  forall pre key post,
    evs = (pre ++ EvDelete key :: post)%list ->
    exists pre' time_delta,
      pre = (pre' ++ [EvLogInfo (LogDeleting (name key) time_delta)])%list.

(** Two computations that do the same from every world in which the
    first deletes nothing. *)
Definition same_unless_deleting {A} (m1 m2 : M Store A) : Prop :=
  forall w, deletes (events (m1 w)) = [] -> m1 w = m2 w.

(** As [accounted], for a run that logs more than its reports: the
    clock readings match the keys listed, the keys reported are those
    of the visits found too old, and the deletions too unless the run
    is dry. *)
Definition tallied (time_old : timedelta) (dry_run : bool) {A}
    (o : list Event * World Store * result A) : Prop :=
  (List.length (nows (events o)) <= List.length (listed (events o)))%nat
  /\ ((exists a, outcome o = inr a) ->
      List.length (listed (events o)) = List.length (nows (events o)))
  /\ candidates (events o)
     = map (fun v => name (fst v))
           (filter (qualifies time_old) (visits (events o)))
  /\ deletes (events o)
     = (if dry_run then []
        else map fst (filter (qualifies time_old) (visits (events o)))).

(** A record whose elapsed time, when it reports a key, exceeds the
    threshold. *)
Definition exceeds (time_old : timedelta) (r : LogRecord) : Prop :=
  match r with
  | LogDeleting _ time_delta => td_gt time_delta time_old = true
  | LogCleanup _ _ => True
  end.

(** The calls that set up logging in [main]. *)
Definition logging_setup (options : Options) : list Event :=
  ((if negb (quiet options)
    then [EvLogToStream "mrjob" None (verbose options)]
    else []) ++ [EvLogToStream "boto" (Some CRITICAL) false])%list.

End Further.

(** More of the store of the scenario: [c] carries its time stamp with
    milliseconds, as S3 writes it, which the format does not read; [d]
    is a year old; [e] is as old as [a], comes before it under [tmp/]
    and carries its time stamp with milliseconds. *)
Module Scenario.

Definition c : S3Key := mk_key "bucket" "new/c" "2011-01-31T00:00:00.000Z".
Definition d : S3Key := mk_key "bucket" "old/d" "2010-02-10T00:00:00Z".
Definition e : S3Key := mk_key "bucket" "tmp/0" "2011-01-01T00:00:00.000Z".

Definition everything : World Fake.Store :=
  Fake.world [Fake.a; Fake.b; c; d].

Definition test_options : Options :=
  mk_options false false ConfDefault DEFAULT_TIME_OLD true.

End Scenario.

(* ===================================================================== *)
(** * The parser on examples *)
(* ===================================================================== *)

Example process_time_45m :
  process_time "45m" = ok {| days := 0; seconds := 2700; microseconds := 0 |}.
Proof. reflexivity. Qed.

Example process_time_neg1h :
  process_time "-1h" = ok {| days := -1; seconds := 82800; microseconds := 0 |}.
Proof. reflexivity. Qed.

Example td_str_ex :
  td_str {| days := -1; seconds := 82800; microseconds := 5 |}
  = "-1 day, 23:00:00.000005".
Proof. reflexivity. Qed.

Example td_repr_ex : td_repr (normalize 30 0 0) = "datetime.timedelta(30)".
Proof. reflexivity. Qed.

Example strptime_2011 :
  Fake.strptime "2011-01-01T00:00:00Z" = ok ((734137 * 86400) * 1000000).
Proof. reflexivity. Qed.

(** Python reads fields without their leading zeros and the letters in
    either case; it refuses a second of 60, a date that does not exist
    and the milliseconds S3 writes. *)
Example strptime_unpadded :
  Fake.strptime "2011-1-1t0:0:0z" = Fake.strptime "2011-01-01T00:00:00Z".
Proof. reflexivity. Qed.

Example strptime_leap_second :
  Fake.strptime "2011-01-01T00:00:60Z" = raise ValueError.
Proof. reflexivity. Qed.

Example strptime_no_such_day :
  Fake.strptime "2011-02-29T00:00:00Z" = raise ValueError.
Proof. reflexivity. Qed.

Example strptime_milliseconds :
  Fake.strptime "2011-01-01T00:00:00.000Z" = raise ValueError.
Proof. reflexivity. Qed.


(* ===================================================================== *)
(** * Facts about the Python values *)
(* ===================================================================== *)

Module PyFacts.

(** ** Strings *)

Lemma length_snoc (s : string) (c : ascii) :
  String.length (s ++ String c "") = S (String.length s).
Proof. induction s as [|a s IH]; simpl; congruence. Qed.

Lemma get_snoc (s : string) (c : ascii) :
  String.get (String.length s) (s ++ String c "") = Some c.
Proof. induction s as [|a s IH]; simpl; auto. Qed.

Lemma substring_snoc (s : string) (c : ascii) :
  String.substring 0 (String.length s) (s ++ String c "") = s.
Proof. induction s as [|a s IH]; simpl; [reflexivity | now rewrite IH]. Qed.

(** A string that is not empty ends in a character. *)
Lemma snoc_cases (s : string) :
  s = "" \/ exists s' c, s = s' ++ String c "".
Proof.
  induction s as [|a s IH]; [now left | right].
  destruct IH as [-> | (s' & c & ->)].
  - now exists "", a.
  - now exists (String a s'), c.
Qed.

(** [(s + c)[-1]] is [c]. *)
Lemma getitem_last (s : string) (c : ascii) :
  getitem (s ++ String c "") (-1) = ok c.
Proof.
  unfold getitem, len. rewrite length_snoc.
  replace (-1 <? 0) with true by reflexivity.
  replace (-1 + Z.of_nat (S (String.length s)))
    with (Z.of_nat (String.length s)) by lia.
  destruct (Z.ltb_spec (Z.of_nat (String.length s)) 0); [lia|].
  destruct (Z.leb_spec (Z.of_nat (S (String.length s)))
                       (Z.of_nat (String.length s))); [lia|].
  simpl. now rewrite Nat2Z.id, get_snoc.
Qed.

(** [(s + c)[:-1]] is [s]. *)
Lemma slice_to_last (s : string) (c : ascii) :
  slice_to (s ++ String c "") (-1) = s.
Proof.
  unfold slice_to, len. rewrite length_snoc.
  replace (-1 <? 0) with true by reflexivity.
  replace (Z.max 0 (-1 + Z.of_nat (S (String.length s))))
    with (Z.of_nat (String.length s)) by lia.
  now rewrite Nat2Z.id, substring_snoc.
Qed.

Lemma getitem_empty : getitem "" (-1) = raise IndexError.
Proof. reflexivity. Qed.

(** ** [int] reads back what [%d] prints *)

Lemma lstrip_nospace (s : string) : nospace s = true -> lstrip s = s.
Proof.
  destruct s as [|c s]; simpl; [reflexivity|].
  intros H. apply andb_true_iff in H as [H _].
  now destruct (isspace c).
Qed.

Lemma rstrip_nospace (s : string) : nospace s = true -> rstrip s = s.
Proof.
  induction s as [|c s IH]; simpl; [reflexivity|].
  intros H. apply andb_true_iff in H as [Hc Hs].
  rewrite (IH Hs). destruct s; [|reflexivity].
  now destruct (isspace c).
Qed.

Lemma strip_nospace (s : string) : nospace s = true -> strip s = s.
Proof.
  intros H. unfold strip. rewrite (lstrip_nospace _ H). now apply rstrip_nospace.
Qed.

(** A printed numeral has digits only: no space and no sign. *)
Lemma isdigit_spec (c : ascii) :
  isdigit c = true ->
  isspace c = false /\ Ascii.eqb c "-" = false /\ Ascii.eqb c "+" = false.
Proof.
  destruct c as [[|] [|] [|] [|] [|] [|] [|] [|]];
    try discriminate; intros _; repeat split.
Qed.

Lemma only_digits_uint (d : uint) :
  only_digits (NilEmpty.string_of_uint d) = true.
Proof. induction d; cbn [NilEmpty.string_of_uint only_digits]; auto. Qed.

Lemma only_digits_nospace (s : string) :
  only_digits s = true -> nospace s = true.
Proof.
  induction s as [|c s IH]; cbn [only_digits nospace]; [reflexivity|].
  intros H. apply andb_true_iff in H as [Hc Hs]. rewrite (IH Hs).
  destruct (isdigit_spec _ Hc) as (-> & _). reflexivity.
Qed.

Lemma only_digits_head (c : ascii) (s : string) :
  only_digits (String c s) = true ->
  Ascii.eqb c "-" = false /\ Ascii.eqb c "+" = false.
Proof.
  cbn [only_digits]. intros H. apply andb_true_iff in H as [Hc _].
  now destruct (isdigit_spec _ Hc) as (_ & -> & ->).
Qed.

Lemma digits_uint (d : uint) :
  d <> Nil ->
  digits (NilEmpty.string_of_uint d) = Some (Z.of_N (N.of_uint d)).
Proof.
  intros Hd. unfold digits.
  destruct (NilEmpty.string_of_uint d) eqn:E.
  - destruct d; simpl in E; congruence.
  - rewrite <- E, NilEmpty.usu. reflexivity.
Qed.

Lemma to_uint_nonnil (p : positive) : Pos.to_uint p <> Nil.
Proof.
  intros E. pose proof (DecimalPos.Unsigned.of_to p) as H.
  rewrite E in H. discriminate H.
Qed.

Lemma int_literal_uint (p : positive) :
  int_literal (NilEmpty.string_of_uint (Pos.to_uint p)) = Some (Z.pos p).
Proof.
  pose proof (only_digits_uint (Pos.to_uint p)) as Hd.
  unfold int_literal.
  rewrite (strip_nospace _ (only_digits_nospace _ Hd)).
  destruct (NilEmpty.string_of_uint (Pos.to_uint p)) as [|c s] eqn:E.
  - destruct (Pos.to_uint p) eqn:E'; simpl in E; try discriminate.
    now destruct (to_uint_nonnil p).
  - destruct (only_digits_head _ _ Hd) as [-> ->].
    rewrite <- E, (digits_uint _ (to_uint_nonnil p)).
    unfold N.of_uint. now rewrite DecimalPos.Unsigned.of_to.
Qed.

(** [int('%d' % n) == n]. *)
Lemma int_fmt_d (n : Z) : int (fmt_d n) = ok n.
Proof.
  unfold int, fmt_d. destruct n as [|p|p]; simpl.
  - reflexivity.
  - assert (E : NilZero.string_of_uint (Pos.to_uint p)
                = NilEmpty.string_of_uint (Pos.to_uint p)).
    { destruct (Pos.to_uint p) eqn:E'; try reflexivity.
      now destruct (to_uint_nonnil p). }
    rewrite E, int_literal_uint. reflexivity.
  - assert (E : NilZero.string_of_uint (Pos.to_uint p)
                = NilEmpty.string_of_uint (Pos.to_uint p)).
    { destruct (Pos.to_uint p) eqn:E'; try reflexivity.
      now destruct (to_uint_nonnil p). }
    rewrite E. unfold int_literal.
    pose proof (only_digits_uint (Pos.to_uint p)) as Hd.
    assert (Hs : nospace (String "-" (NilEmpty.string_of_uint (Pos.to_uint p)))
                 = true).
    { simpl. now apply only_digits_nospace. }
    rewrite (strip_nospace _ Hs). simpl.
    rewrite (digits_uint _ (to_uint_nonnil p)).
    unfold N.of_uint. now rewrite DecimalPos.Unsigned.of_to.
Qed.

End PyFacts.

(** ** Durations *)

Module TdFacts.

Lemma normalize_seconds (d s us : Z) :
  0 <= seconds (normalize d s us) < seconds_per_day.
Proof. unfold normalize, seconds_per_day; simpl. apply Z.mod_pos_bound. lia. Qed.

Lemma normalize_microseconds (d s us : Z) :
  0 <= microseconds (normalize d s us) < us_per_second.
Proof. unfold normalize, us_per_second; simpl. apply Z.mod_pos_bound. lia. Qed.

(** Normalising keeps the length of the duration. *)
Lemma total_us_normalize (d s us : Z) :
  total_us (normalize d s us)
  = d * us_per_day + s * us_per_second + us.
Proof.
  unfold total_us, normalize, us_per_day, us_per_second, seconds_per_day.
  cbn [days seconds microseconds].
  pose proof (Z.div_mod us 1000000 ltac:(lia)) as H1.
  pose proof (Z.div_mod (s + us / 1000000) 86400 ltac:(lia)) as H2.
  lia.
Qed.

(** On normalised durations the comparison field by field is the
    comparison of the lengths. *)
Lemma td_gt_total_us (a b : timedelta) :
  0 <= seconds a < seconds_per_day ->
  0 <= microseconds a < us_per_second ->
  0 <= seconds b < seconds_per_day ->
  0 <= microseconds b < us_per_second ->
  td_gt a b = true <-> total_us b < total_us a.
Proof.
  unfold td_gt, total_us, us_per_day, us_per_second, seconds_per_day.
  intros Hsa Hua Hsb Hub.
  destruct (Z.compare_spec (days a) (days b)) as [Hd|Hd|Hd].
  - destruct (Z.compare_spec (seconds a) (seconds b)) as [Hs|Hs|Hs].
    + rewrite Z.ltb_lt. lia.
    + split; [discriminate | lia].
    + split; [lia | reflexivity].
  - split; [discriminate | lia].
  - split; [lia | reflexivity].
Qed.

Lemma timedelta_new_ok (d h m : Z) (t : timedelta) :
  timedelta_new d h m = ok t ->
  wf t /\ total_us t = (d * 86400 + h * 3600 + m * 60) * us_per_second.
Proof.
  unfold timedelta_new.
  destruct (Z.leb_spec (Z.abs (days (normalize d (h * 3600 + m * 60) 0)))
                       max_delta_days) as [Hd|Hd]; [|discriminate].
  intros [= <-]. split.
  - unfold wf. split; [lia|].
    split; [apply normalize_seconds | apply normalize_microseconds].
  - rewrite total_us_normalize. unfold us_per_day, us_per_second. lia.
Qed.

(** [timedelta(...)] succeeds exactly when the duration is within
    [max_delta_days] days on either side. *)
Lemma timedelta_new_in_range (d h m : Z) :
  - max_delta_days * seconds_per_day <= d * 86400 + h * 3600 + m * 60
    < (max_delta_days + 1) * seconds_per_day ->
  exists t, timedelta_new d h m = ok t.
Proof.
  unfold timedelta_new, normalize, max_delta_days, seconds_per_day,
    us_per_second.
  cbn [days]. intros H.
  change (0 / 1000000) with 0. rewrite Z.add_0_r.
  set (q := (h * 3600 + m * 60) / 86400).
  assert (Hq : d + q = (d * 86400 + h * 3600 + m * 60) / 86400).
  { unfold q.
    replace (d * 86400 + h * 3600 + m * 60)
      with ((h * 3600 + m * 60) + d * 86400) by lia.
    rewrite Z.div_add by lia. lia. }
  rewrite Hq.
  set (x := d * 86400 + h * 3600 + m * 60) in *.
  assert (-999999999 <= x / 86400) by (apply Z.div_le_lower_bound; lia).
  assert (x / 86400 < 999999999 + 1) by (apply Z.div_lt_upper_bound; lia).
  destruct (Z.leb_spec (Z.abs (x / 86400)) 999999999); [eauto | lia].
Qed.

End TdFacts.

(* ===================================================================== *)
(** * The duration parser *)
(* ===================================================================== *)

Section ProcessTime.

Import PyFacts TdFacts.

Lemma scale_div (x : Z) : (x * 1000000) / 86400000000 = x / 86400.
Proof.
  change 86400000000 with (1000000 * 86400).
  rewrite <- Z.div_div by lia. now rewrite Z.div_mul by lia.
Qed.

(** A whole number of seconds, normalised. *)
Lemma normalize_whole (x : Z) :
  normalize 0 0 (x * 1000000) = mk_timedelta (x / 86400) (x mod 86400) 0.
Proof.
  unfold normalize, us_per_second, seconds_per_day.
  rewrite Z.div_mul, Z.mod_mul by lia. reflexivity.
Qed.

Lemma normalize_seconds_only (d s : Z) :
  normalize d s 0 = mk_timedelta (d + s / 86400) (s mod 86400) 0.
Proof.
  unfold normalize, us_per_second, seconds_per_day.
  change (0 / 1000000) with 0. change (0 mod 1000000) with 0.
  now rewrite Z.add_0_r.
Qed.

(** [timedelta(minutes=n)], [timedelta(hours=n)] and [timedelta(days=n)]
    are [n] minutes, hours and days. *)
Lemma timedelta_new_duration (u : Unit) (n : Z) :
  match u with
  | Minutes => timedelta_new 0 0 n
  | Hours => timedelta_new 0 n 0
  | Days => timedelta_new n 0 0
  end = duration u n.
Proof.
  unfold timedelta_new, duration, unit_us, us_per_day, us_per_second.
  destruct u; rewrite normalize_seconds_only; cbn [days].
  - replace (n * (60 * 1000000)) with (n * 60 * 1000000) by lia.
    rewrite scale_div, normalize_whole.
    replace (0 * 3600 + n * 60) with (n * 60) by lia. reflexivity.
  - replace (n * (3600 * 1000000)) with (n * 3600 * 1000000) by lia.
    rewrite scale_div, normalize_whole.
    replace (n * 3600 + 0 * 60) with (n * 3600) by lia. reflexivity.
  - replace (n * 86400000000) with (n * 86400 * 1000000) by lia.
    rewrite scale_div, normalize_whole.
    rewrite Z.div_mul, Z.mod_mul by lia.
    change ((0 * 3600 + 0 * 60) / 86400) with 0.
    change ((0 * 3600 + 0 * 60) mod 86400) with 0.
    now rewrite Z.add_0_r.
Qed.

(** The parser looks at the final character only: under a unit suffix
    the rest is the numeral, otherwise the whole string is, in hours. *)
Lemma process_time_snoc (body : string) (c : ascii) :
  process_time (body ++ String c "")
  = rbind (int (numeral_of body c)) (duration (unit_of c)).
Proof.
  unfold process_time, numeral_of, unit_of, unit_of_char.
  rewrite getitem_last, slice_to_last. cbn [rbind].
  destruct (Ascii.eqb c "m");
    [destruct (int body); cbn [rbind];
       [reflexivity | apply (timedelta_new_duration Minutes)]|].
  destruct (Ascii.eqb c "h");
    [destruct (int body); cbn [rbind];
       [reflexivity | apply (timedelta_new_duration Hours)]|].
  destruct (Ascii.eqb c "d");
    [destruct (int body); cbn [rbind];
       [reflexivity | apply (timedelta_new_duration Days)]|].
  destruct (int (body ++ String c "")); cbn [rbind];
    [reflexivity | apply (timedelta_new_duration Hours)].
Qed.

Lemma suffix_snoc (s : string) (u : Unit) :
  s ++ suffix u
  = s ++ String (match u with Minutes => "m" | Hours => "h" | Days => "d" end)
                "".
Proof. now destruct u. Qed.

Lemma process_time_suffix (s : string) (u : Unit) :
  process_time (s ++ suffix u) = rbind (int s) (duration u).
Proof.
  rewrite suffix_snoc, process_time_snoc. now destruct u.
Qed.

(** A printed integer ends in a digit. *)
Lemma only_digits_snoc (s : string) :
  only_digits s = true -> s <> "" ->
  exists s' c, s = s' ++ String c "" /\ isdigit c = true.
Proof.
  induction s as [|a s IH]; [congruence|].
  cbn [only_digits]. intros H _. apply andb_true_iff in H as [Ha Hs].
  destruct s as [|b s].
  - now exists "", a.
  - destruct (IH Hs ltac:(discriminate)) as (s' & c & E & Hc).
    exists (String a s'), c. split; [|exact Hc].
    cbn [append]. now rewrite <- E.
Qed.

Lemma fmt_d_snoc (n : Z) :
  exists s c, fmt_d n = s ++ String c "" /\ isdigit c = true.
Proof.
  assert (Hu : forall p, exists s c,
    NilZero.string_of_uint (Pos.to_uint p) = s ++ String c ""
    /\ isdigit c = true).
  { intros p.
    assert (E : NilZero.string_of_uint (Pos.to_uint p)
                = NilEmpty.string_of_uint (Pos.to_uint p)).
    { destruct (Pos.to_uint p) eqn:E'; try reflexivity.
      now destruct (to_uint_nonnil p). }
    rewrite E. apply only_digits_snoc; [apply only_digits_uint|].
    pose proof (to_uint_nonnil p).
    destruct (Pos.to_uint p); cbn; congruence. }
  unfold fmt_d. destruct n as [|p|p]; cbn [Z.to_int NilZero.string_of_int].
  - now exists "", "0"%char.
  - apply Hu.
  - destruct (Hu p) as (s & c & E & Hc).
    exists (String "-" s), c. split; [|exact Hc].
    cbn [append]. now rewrite <- E.
Qed.

Lemma isdigit_no_unit (c : ascii) : isdigit c = true -> unit_of_char c = None.
Proof.
  destruct c as [[|] [|] [|] [|] [|] [|] [|] [|]];
    try discriminate; intros _; reflexivity.
Qed.

Lemma process_time_no_suffix (n : Z) :
  process_time (fmt_d n) = duration Hours n.
Proof.
  destruct (fmt_d_snoc n) as (s & c & E & Hc).
  rewrite E, process_time_snoc. unfold numeral_of, unit_of.
  rewrite (isdigit_no_unit _ Hc), <- E, int_fmt_d. reflexivity.
Qed.

End ProcessTime.

Section ProcessTimeClaims.

Import PyFacts TdFacts.

Lemma leading_numeral_snoc (body : string) (c : ascii) :
  leading_numeral (body ++ String c "") = numeral_of body c.
Proof. unfold leading_numeral. now rewrite getitem_last, slice_to_last. Qed.

(** [duration] never raises ValueError: only [int] does. *)
Lemma duration_not_ValueError (u : Unit) (n : Z) :
  duration u n <> raise ValueError.
Proof.
  unfold duration.
  destruct (Z.abs (n * unit_us u / us_per_day) <=? max_delta_days);
    discriminate.
Qed.

(** The parser raises ValueError only for a malformed numeral. *)
Lemma process_time_ValueError_inv (s : string) :
  process_time s = raise ValueError ->
  s <> "" /\ int_literal (leading_numeral s) = None.
Proof.
  destruct (snoc_cases s) as [-> | (body & c & ->)]; [discriminate|].
  rewrite process_time_snoc, leading_numeral_snoc. unfold int.
  destruct (int_literal (numeral_of body c)) as [n|]; cbn [rbind].
  - intros H. now destruct (duration_not_ValueError _ _ H).
  - intros _. split; [|reflexivity]. now destruct body.
Qed.

(** The test of line 70 compares the age of the object, in
    microseconds, with the length of the threshold. *)
Lemma too_old_iff (time_old : timedelta) (now lm : datetime) :
  0 <= seconds time_old < seconds_per_day ->
  0 <= microseconds time_old < us_per_second ->
  too_old time_old now lm = true <-> total_us time_old < age now lm.
Proof.
  intros Hs Hu. unfold too_old, dt_sub, replace_tzinfo_None, age.
  rewrite td_gt_total_us;
    [| apply normalize_seconds | apply normalize_microseconds | exact Hs
     | exact Hu].
  rewrite total_us_normalize. lia.
Qed.

Lemma duration_in_range (u : Unit) (n : Z) :
  - max_delta_days * us_per_day <= n * unit_us u
    < (max_delta_days + 1) * us_per_day ->
  duration u n = ok (normalize 0 0 (n * unit_us u)).
Proof.
  unfold duration, max_delta_days, us_per_day. intros H.
  assert (-999999999 <= n * unit_us u / 86400000000)
    by (apply Z.div_le_lower_bound; lia).
  assert (n * unit_us u / 86400000000 < 999999999 + 1)
    by (apply Z.div_lt_upper_bound; lia).
  destruct (Z.leb_spec (Z.abs (n * unit_us u / 86400000000)) 999999999);
    [reflexivity | lia].
Qed.

End ProcessTimeClaims.

(** C3.  The parser dispatches on the final character alone: under a
    suffix [m], [h] or [d] the rest of the string is the numeral, in
    minutes, hours or days; under any other final character the whole
    string is the numeral, in hours.  So every printed integer [n]
    followed by a unit suffix is [n] of that unit, and [n] alone is [n]
    hours; ["45m"] is 45 minutes, ["2h"] 2 hours, ["7d"] 7 days and ["5"]
    5 hours. *)
Theorem process_time_final_character :
  (forall (body : string) (c : ascii),
      process_time (body ++ String c "")
      = rbind (int (numeral_of body c)) (duration (unit_of c)))
  /\ (forall (u : Unit) (n : Z),
         process_time (fmt_d n ++ suffix u) = duration u n)
  /\ (forall n : Z, process_time (fmt_d n) = duration Hours n)
  /\ process_time "45m" = timedelta_new 0 0 45
  /\ process_time "2h" = timedelta_new 0 2 0
  /\ process_time "7d" = timedelta_new 7 0 0
  /\ process_time "5" = timedelta_new 0 5 0
  /\ timedelta_new 0 0 45 = ok (mk_timedelta 0 (45 * 60) 0)
  /\ timedelta_new 0 2 0 = ok (mk_timedelta 0 (2 * 3600) 0)
  /\ timedelta_new 7 0 0 = ok (mk_timedelta 7 0 0)
  /\ timedelta_new 0 5 0 = ok (mk_timedelta 0 (5 * 3600) 0).
Proof.
  split; [exact process_time_snoc|].
  split.
  { intros u n. rewrite process_time_suffix, PyFacts.int_fmt_d. reflexivity. }
  split; [exact process_time_no_suffix|].
  repeat split; reflexivity.
Qed.

(** C4.  A string that is not empty and whose numeral (the string
    without its unit suffix, or the whole string when it has none) is
    not an integer makes the parser raise ValueError, the malformed
    duration error, instead of returning a duration. *)
Theorem process_time_malformed (s : string) :
  s <> "" ->
  int_literal (leading_numeral s) = None ->
  process_time s = raise ValueError.
Proof.
  intros Hs. destruct (PyFacts.snoc_cases s) as [-> | (body & c & ->)];
    [congruence|].
  rewrite leading_numeral_snoc, process_time_snoc. unfold int.
  now intros ->.
Qed.

(** C4 on ["d"], whose numeral is empty, and on ["abc"], which has no
    suffix and is no integer. *)
Lemma process_time_malformed_examples :
  process_time "d" = raise ValueError
  /\ process_time "abc" = raise ValueError.
Proof.
  split.
  - apply (process_time_malformed "d"); [discriminate | reflexivity].
  - apply (process_time_malformed "abc"); [discriminate | reflexivity].
Defined.

(** C9.  The empty string is not rejected up front: [time[-1]] is
    evaluated first and raises IndexError, which is not the ValueError
    of a malformed numeral; and no other string fails that way. *)
Theorem process_time_empty :
  process_time "" = raise IndexError
  /\ process_time "" <> raise ValueError
  /\ (forall (body : string) (c : ascii),
         process_time (body ++ String c "") <> raise IndexError).
Proof.
  split; [reflexivity|]. split; [discriminate|].
  intros body c. rewrite process_time_snoc. unfold int, duration.
  destruct (int_literal (numeral_of body c)) as [n|]; cbn [rbind];
    [|discriminate].
  destruct (Z.abs (n * unit_us (unit_of c) / us_per_day) <=? max_delta_days);
    discriminate.
Qed.

(** C10, as stated, fails: the threshold ["0d"] is accepted and is the
    zero duration, and an object examined at the very instant it was
    last modified has age 0, which is not negative, yet it is not
    classified for deletion. *)
Lemma zero_threshold_keeps_object_of_age_zero :
  process_time "0d" = ok (mk_timedelta 0 0 0)
  /\ total_us (mk_timedelta 0 0 0) <= 0
  /\ 0 <= age 63429523200000000 63429523200000000
  /\ too_old (mk_timedelta 0 0 0) 63429523200000000 63429523200000000
     = false.
Proof. repeat split; try reflexivity; discriminate. Qed.

(** C10, amended.  A magnitude [n <= 0] within the range of [timedelta]
    is accepted with any unit suffix and gives the duration of [n]
    units, negative or zero.  Under it every object of non-negative age
    is classified for deletion when the threshold is negative, and every
    object of positive age when it is zero. *)
Theorem process_time_nonpositive (u : Unit) (n : Z) (now lm : datetime) :
  - max_delta_days * us_per_day <= n * unit_us u <= 0 ->
  0 <= age now lm ->
  n < 0 \/ 0 < age now lm ->
  exists t,
    process_time (fmt_d n ++ suffix u) = ok t
    /\ total_us t = n * unit_us u
    /\ total_us t <= 0
    /\ too_old t now lm = true.
Proof.
  intros Hn Hage Hstrict.
  exists (normalize 0 0 (n * unit_us u)).
  assert (Ht : total_us (normalize 0 0 (n * unit_us u)) = n * unit_us u)
    by (rewrite TdFacts.total_us_normalize; lia).
  split.
  { rewrite process_time_suffix, PyFacts.int_fmt_d. cbn [rbind].
    apply duration_in_range. unfold max_delta_days, us_per_day in *. lia. }
  split; [exact Ht|]. split; [lia|].
  apply too_old_iff;
    [apply TdFacts.normalize_seconds | apply TdFacts.normalize_microseconds|].
  rewrite Ht.
  assert (0 < unit_us u) by (destruct u; reflexivity).
  destruct Hstrict as [Hneg | Hpos]; nia.
Qed.

(** C10 on ["-1h"] with an object of age zero, and on ["0d"] with an
    object one microsecond old. *)
Lemma process_time_nonpositive_examples :
  (exists t,
      process_time "-1h" = ok t /\ total_us t = -1 * unit_us Hours
      /\ total_us t <= 0 /\ too_old t 1000000 1000000 = true)
  /\ (exists t,
         process_time "0d" = ok t /\ total_us t = 0 * unit_us Days
         /\ total_us t <= 0 /\ too_old t 1000001 1000000 = true).
Proof.
  split.
  - apply (process_time_nonpositive Hours (-1) 1000000 1000000);
      [vm_compute; split; discriminate | vm_compute; discriminate
      | left; reflexivity].
  - apply (process_time_nonpositive Days 0 1000001 1000000);
      [vm_compute; split; discriminate | vm_compute; discriminate
      | right; reflexivity].
Defined.

(* ===================================================================== *)
(** * Runs *)
(* ===================================================================== *)

Section Traces.

Lemma deletes_app (a b : list Event) : deletes (a ++ b) = (deletes a ++ deletes b)%list.
Proof. apply flat_map_app. Qed.

Lemma listed_app (a b : list Event) : listed (a ++ b) = (listed a ++ listed b)%list.
Proof. apply flat_map_app. Qed.

Lemma nows_app (a b : list Event) : nows (a ++ b) = (nows a ++ nows b)%list.
Proof. apply flat_map_app. Qed.

Lemma logs_app (a b : list Event) : logs (a ++ b) = (logs a ++ logs b)%list.
Proof. apply flat_map_app. Qed.

Lemma storage_calls_app (a b : list Event) :
  storage_calls (a ++ b) = (storage_calls a ++ storage_calls b)%list.
Proof. apply filter_app. Qed.

Lemma combine_app {A B} (a1 a2 : list A) (b1 b2 : list B) :
  List.length a1 = List.length b1 ->
  combine (a1 ++ a2) (b1 ++ b2) = (combine a1 b1 ++ combine a2 b2)%list.
Proof.
  revert b1. induction a1 as [|x a1 IH]; intros [|y b1]; cbn;
    try discriminate; [reflexivity|].
  intros [= H]. now rewrite IH.
Qed.

(** When the first part of a run has examined every key it listed, the
    visits of the whole run are those of its two parts. *)
Lemma visits_app (a b : list Event) :
  List.length (listed a) = List.length (nows a) ->
  visits (a ++ b) = (visits a ++ visits b)%list.
Proof.
  intros H. unfold visits. rewrite listed_app, nows_app. now apply combine_app.
Qed.

End Traces.

Section Monad.

Context {Store : Type}.

Lemma bind_inl {A B} (m : M Store A) (f : A -> M Store B) w evs w1 e :
  m w = (evs, w1, inl e) -> bind m f w = (evs, w1, inl e).
Proof. unfold bind. now intros ->. Qed.

Lemma bind_inr {A B} (m : M Store A) (f : A -> M Store B) w evs w1 a :
  m w = (evs, w1, inr a) ->
  bind m f w
  = ((evs ++ events (f a w1))%list, final (f a w1), outcome (f a w1)).
Proof.
  unfold bind, events, final, outcome. intros ->.
  now destruct (f a w1) as [[evs' w2] r].
Qed.

Lemma run_eta {A} (o : list Event * World Store * result A) :
  o = (events o, final o, outcome o).
Proof. now destruct o as [[evs w] r]. Qed.

(** What [bind] does, seen through the three projections. *)
Lemma events_bind {A B} (m : M Store A) (f : A -> M Store B) w :
  events (bind m f w)
  = match outcome (m w) with
    | inl _ => events (m w)
    | inr a => (events (m w) ++ events (f a (final (m w))))%list
    end.
Proof.
  unfold bind, events, final, outcome.
  destruct (m w) as [[evs w1] [e|a]]; cbn; [reflexivity|].
  now destruct (f a w1) as [[evs' w2] r].
Qed.

Lemma final_bind {A B} (m : M Store A) (f : A -> M Store B) w :
  final (bind m f w)
  = match outcome (m w) with
    | inl _ => final (m w)
    | inr a => final (f a (final (m w)))
    end.
Proof.
  unfold bind, events, final, outcome.
  destruct (m w) as [[evs w1] [e|a]]; cbn; [reflexivity|].
  now destruct (f a w1) as [[evs' w2] r].
Qed.

Lemma outcome_bind {A B} (m : M Store A) (f : A -> M Store B) w :
  outcome (bind m f w)
  = match outcome (m w) with
    | inl e => inl e
    | inr a => outcome (f a (final (m w)))
    end.
Proof.
  unfold bind, events, final, outcome.
  destruct (m w) as [[evs w1] [e|a]]; cbn; [reflexivity|].
  now destruct (f a w1) as [[evs' w2] r].
Qed.

End Monad.

Section ReadOnly.

Context {Store : Type} {C : Collaborators Store}.

Lemma read_only_ret {A} (a : A) : read_only (@ret Store A a).
Proof. now intros w. Qed.

Lemma read_only_lift {A} (r : result A) : read_only (@lift Store A r).
Proof. now intros w. Qed.

Lemma read_only_bind {A B} (m : M Store A) (f : A -> M Store B) :
  read_only m -> (forall a, read_only (f a)) -> read_only (bind m f).
Proof.
  intros Hm Hf w. destruct (Hm w) as [Hs Hd].
  rewrite final_bind, events_bind.
  destruct (outcome (m w)) as [e|a]; [now split|].
  destruct (Hf a (final (m w))) as [Hs' Hd'].
  rewrite deletes_app, Hd, Hd', Hs', Hs. now split.
Qed.

Lemma read_only_call {A} (ev : Event) (f : Store -> result A) :
  deletes [ev] = [] -> read_only (call ev f).
Proof. intros H w. now split. Qed.

Lemma read_only_list_keys (bucket key_name : string) :
  read_only (list_keys bucket key_name).
Proof.
  intros w. unfold list_keys.
  now destruct (bucket_list (store w) bucket key_name).
Qed.

Lemma read_only_for_each {A} (xs : list A) (body : A -> M Store unit) :
  (forall x, read_only (body x)) -> read_only (for_each xs body).
Proof.
  intros Hb. induction xs as [|x xs IH]; cbn [for_each].
  - apply read_only_ret.
  - apply read_only_bind; [apply Hb | intros _; exact IH].
Qed.

(** In a dry run nothing of lines 67-74 touches the store. *)
Lemma read_only_key (time_old : timedelta) (key : S3Key) :
  read_only (S3_cleanup_key time_old true key).
Proof.
  unfold S3_cleanup_key.
  apply read_only_bind; [apply read_only_lift | intros lm].
  apply read_only_bind; [now intros w | intros now].
  destruct (td_gt _ _); [|apply read_only_ret].
  apply read_only_bind; [now intros w | intros _].
  apply read_only_ret.
Qed.

Lemma read_only_path (time_old : timedelta) (path : string) :
  read_only (S3_cleanup_path time_old true path).
Proof.
  unfold S3_cleanup_path.
  apply read_only_bind; [apply read_only_lift | intros [bucket_name key_name]].
  apply read_only_bind; [now apply read_only_call | intros bucket].
  apply read_only_bind; [apply read_only_list_keys | intros keys].
  apply read_only_for_each. intros key. apply read_only_key.
Qed.

Lemma read_only_S3_cleanup (glob_path : string) (time_old : timedelta)
    (conf : ConfPath) :
  read_only (S3_cleanup glob_path time_old true conf).
Proof.
  unfold S3_cleanup.
  apply read_only_bind; [now apply read_only_call | intros _].
  apply read_only_bind; [now apply read_only_call | intros _].
  apply read_only_bind; [now intros w | intros _].
  apply read_only_bind; [now apply read_only_call | intros paths].
  apply read_only_for_each. intros path. apply read_only_path.
Qed.

End ReadOnly.

Section ClockBlind.

Context {Store : Type} {C : Collaborators Store}.

Lemma clock_blind_ret {A} (a : A) : clock_blind (@ret Store A a).
Proof. now intros w1 w2 H. Qed.

Lemma clock_blind_lift {A} (r : result A) : clock_blind (@lift Store A r).
Proof. now intros w1 w2 H. Qed.

Lemma clock_blind_emit (ev : Event) : clock_blind (@emit Store ev).
Proof. now intros w1 w2 H. Qed.

Lemma clock_blind_bind {A B} (m : M Store A) (f : A -> M Store B) :
  clock_blind m -> (forall a, clock_blind (f a)) -> clock_blind (bind m f).
Proof.
  intros Hm Hf w1 w2 H. destruct (Hm w1 w2 H) as (Hl & Hn & Ho & Hs).
  rewrite !events_bind, !final_bind, !outcome_bind, <- Ho.
  destruct (outcome (m w1)) as [e|a]; [now repeat split|].
  destruct (Hf a _ _ Hs) as (Hl' & Hn' & Ho' & Hs').
  rewrite !listed_app, !nows_app, !length_app, Hl, Hl', Hn, Hn'.
  now repeat split.
Qed.

Lemma clock_blind_call {A} (ev : Event) (f : Store -> result A) :
  clock_blind (call ev f).
Proof.
  intros w1 w2 H. unfold call, events, outcome, final; cbn.
  rewrite H. now repeat split.
Qed.

Lemma clock_blind_list_keys (bucket key_name : string) :
  clock_blind (list_keys bucket key_name).
Proof.
  intros w1 w2 H. unfold list_keys. rewrite H.
  destruct (bucket_list (store w2) bucket key_name); now repeat split.
Qed.

Lemma clock_blind_for_each {A} (xs : list A) (body : A -> M Store unit) :
  (forall x, clock_blind (body x)) -> clock_blind (for_each xs body).
Proof.
  intros Hb. induction xs as [|x xs IH]; cbn [for_each].
  - apply clock_blind_ret.
  - apply clock_blind_bind; [apply Hb | intros _; exact IH].
Qed.

(** Lines 67-74 in a dry run: the clock decides what is logged, and
    nothing else. *)
Lemma clock_blind_key (time_old : timedelta) (key : S3Key) :
  clock_blind (S3_cleanup_key time_old true key).
Proof.
  intros w1 w2 H.
  unfold S3_cleanup_key, bind, lift, datetime_now, log_info, emit, ret.
  destruct (strptime_ISO8601 (last_modified key)) as [e|lm];
    [now repeat split|].
  cbv beta iota zeta. cbn [negb].
  destruct (td_gt (dt_sub (wall_clock (ticks w1)) _) time_old);
    destruct (td_gt (dt_sub (wall_clock (ticks w2)) _) time_old);
    now repeat split.
Qed.

Lemma clock_blind_S3_cleanup (glob_path : string) (time_old : timedelta)
    (conf : ConfPath) :
  clock_blind (S3_cleanup glob_path time_old true conf).
Proof.
  unfold S3_cleanup.
  apply clock_blind_bind; [apply clock_blind_call | intros _].
  apply clock_blind_bind; [apply clock_blind_call | intros _].
  apply clock_blind_bind; [apply clock_blind_emit | intros _].
  apply clock_blind_bind; [apply clock_blind_call | intros paths].
  apply clock_blind_for_each. intros path. unfold S3_cleanup_path.
  apply clock_blind_bind;
    [apply clock_blind_lift | intros [bucket_name key_name]].
  apply clock_blind_bind; [apply clock_blind_call | intros bucket].
  apply clock_blind_bind; [apply clock_blind_list_keys | intros keys].
  apply clock_blind_for_each. intros key. apply clock_blind_key.
Qed.

End ClockBlind.

Section StoreFrame.

Context {Store : Type} {C : Collaborators Store}.









End StoreFrame.


Section Examination.

Context {Store : Type} {C : Collaborators Store}.
Variables (time_old : timedelta) (dry_run : bool).

(** A key whose [last_modified] does not parse stops the run before
    the clock is read. *)
Lemma key_unparsed (key : S3Key) (w : World Store) (e : exn) :
  strptime_ISO8601 (last_modified key) = inl e ->
  S3_cleanup_key time_old dry_run key w = ([], w, inl e).
Proof. unfold S3_cleanup_key, bind, lift. now intros ->. Qed.

(** Lines 67-74 on a key last modified at [lm]: one reading of the
    clock, then the record and, unless the run is dry, the deletion,
    when the key is too old. *)
Lemma key_examined (key : S3Key) (w : World Store) (lm : datetime) :
  strptime_ISO8601 (last_modified key) = inr lm ->
  let t := wall_clock (ticks w) in
  events (S3_cleanup_key time_old dry_run key w)
  = EvNow t ::
    (if too_old time_old t lm
     then EvLogInfo (report (key, t)) ::
          (if dry_run then [] else [EvDelete key])
     else [])
  /\ ticks (final (S3_cleanup_key time_old dry_run key w)) = S (ticks w).
Proof.
  intros E t. unfold report, elapsed, too_old. cbn [fst snd]. rewrite E.
  unfold S3_cleanup_key, bind, lift, datetime_now, log_info, emit, delete,
    ret, events, final.
  rewrite E. cbv beta iota zeta. fold t.
  destruct (td_gt (dt_sub t (replace_tzinfo_None lm)) time_old);
    [|now split].
  destruct dry_run; cbn; [now split|].
  destruct (key_delete (store w) key); now split.
Qed.

Lemma qualifies_parsed (key : S3Key) (t lm : datetime) :
  strptime_ISO8601 (last_modified key) = inr lm ->
  qualifies time_old (key, t) = too_old time_old t lm.
Proof. unfold qualifies. cbn [fst snd]. now intros ->. Qed.

(** The loop of lines 66-74 over the keys of one listing: the keys are
    examined in order, each with one reading of the clock, until one
    fails; the records and the deletions are those of the keys found
    too old. *)
Lemma keys_examined (keys : list S3Key) (w : World Store) :
  let o := for_each keys (S3_cleanup_key time_old dry_run) w in
  let found := filter (qualifies time_old) (combine keys (nows (events o))) in
  listed (events o) = []
  /\ (List.length (nows (events o)) <= List.length keys)%nat
  /\ (outcome o = ok tt -> List.length (nows (events o)) = List.length keys)
  /\ logs (events o) = map report found
  /\ deletes (events o) = (if dry_run then [] else map fst found)
  /\ ticks (final o) = (ticks w + List.length (nows (events o)))%nat.
Proof.
  revert w. induction keys as [|key keys IH]; intros w; cbn zeta.
  - cbn. repeat split; try lia; now destruct dry_run.
  - cbn [for_each]. rewrite events_bind, outcome_bind, final_bind.
    destruct (strptime_ISO8601 (last_modified key)) as [e|lm] eqn:E.
    + rewrite (key_unparsed _ w e E). cbn.
      repeat split; try lia; try discriminate; now destruct dry_run.
    + destruct (key_examined key w lm E) as [Hev Htk].
      set (k := S3_cleanup_key time_old dry_run key w) in *.
      set (t := wall_clock (ticks w)) in *.
      assert (Hn : nows (events k) = [t]).
      { rewrite Hev. cbn. destruct (too_old time_old t lm); cbn;
          [now destruct dry_run | reflexivity]. }
      assert (Hl : listed (events k) = []).
      { rewrite Hev. cbn. destruct (too_old time_old t lm); cbn;
          [now destruct dry_run | reflexivity]. }
      assert (Hg : logs (events k)
                   = if too_old time_old t lm then [report (key, t)] else []).
      { rewrite Hev. cbn. destruct (too_old time_old t lm); cbn;
          [now destruct dry_run | reflexivity]. }
      assert (Hd : deletes (events k)
                   = if dry_run then []
                     else if too_old time_old t lm then [key] else []).
      { rewrite Hev. cbn. destruct (too_old time_old t lm); cbn;
          now destruct dry_run. }
      pose proof (qualifies_parsed key t lm E) as Hq.
      destruct (outcome k) as [e|[]] eqn:Ek.
      * rewrite Hn, Hl, Hg, Hd. cbn [combine filter List.length map].
        rewrite combine_nil, Hq, Htk. cbn [filter].
        repeat split; try lia; try discriminate;
          destruct (too_old time_old t lm); now destruct dry_run.
      * specialize (IH (final k)). cbn zeta in IH.
        destruct IH as (IHl & IHle & IHok & IHg & IHd & IHt).
        set (r := for_each keys (S3_cleanup_key time_old dry_run) (final k))
          in *.
        rewrite listed_app, nows_app, logs_app, deletes_app.
        rewrite Hn, Hl, Hg, Hd, IHl, IHg, IHd, IHt, Htk.
        change ([t] ++ nows (events r))%list with (t :: nows (events r)).
        cbn [combine filter List.length map List.app]. rewrite Hq.
        repeat split; try lia.
        -- intros Hr. now rewrite (IHok Hr).
        -- now destruct (too_old time_old t lm).
        -- destruct dry_run; [reflexivity|].
           now destruct (too_old time_old t lm).
Qed.

End Examination.

Section Accounting.

Context {Store : Type} {C : Collaborators Store}.
Variables (time_old : timedelta) (dry_run : bool).

Lemma accounted_app {A B} (w : World Store)
    (o1 : list Event * World Store * result A)
    (o2 : list Event * World Store * result B) :
  accounted time_old dry_run w o1 ->
  (exists a, outcome o1 = inr a) ->
  accounted time_old dry_run (final o1) o2 ->
  accounted time_old dry_run w
    ((events o1 ++ events o2)%list, final o2, outcome o2).
Proof.
  intros (H1le & H1ok & H1g & H1d & H1t) Hok (H2le & H2ok & H2g & H2d & H2t).
  specialize (H1ok Hok). unfold accounted. cbn [events final outcome fst snd].
  rewrite listed_app, nows_app, logs_app, deletes_app, !length_app.
  rewrite (visits_app _ _ H1ok), filter_app, !map_app.
  rewrite H1g, H2g, H1d, H2d, H2t, H1t.
  repeat split; try lia.
  - intros Hex. specialize (H2ok Hex). lia.
  - now destruct dry_run.
Qed.

(** A run that stops before any listing has nothing to account for. *)
Lemma accounted_stopped {A} (evs : list Event) (w : World Store) (e : exn) :
  listed evs = [] -> nows evs = [] -> logs evs = [] -> deletes evs = [] ->
  accounted time_old dry_run w (evs, w, @inl exn A e).
Proof.
  intros Hl Hn Hg Hd. unfold accounted, visits.
  cbn [events final outcome fst snd]. rewrite Hl, Hn, Hg, Hd. cbn.
  split; [lia|]. split; [intros [a Ha]; discriminate|].
  split; [reflexivity|]. split; [now destruct dry_run | lia].
Qed.

(** Lines 63-74 for one path. *)
Lemma path_accounted (path : string) (w : World Store) :
  accounted time_old dry_run w (S3_cleanup_path time_old dry_run path w).
Proof.
  unfold S3_cleanup_path, bind at 1, lift.
  destruct (parse_s3_uri path) as [e|[bucket_name key_name]].
  { now apply accounted_stopped. }
  unfold bind at 1, s3_conn_get_bucket, call.
  destruct (get_bucket (store w) bucket_name) as [e|[]]; cbn [rbind].
  { now apply accounted_stopped. }
  unfold bind at 1, list_keys.
  destruct (bucket_list (store w) bucket_name key_name) as [e|keys].
  { now apply accounted_stopped. }
  pose proof (keys_examined time_old dry_run keys w) as H. cbn zeta in H.
  destruct H as (Hl & Hle & Hok & Hg & Hd & Ht).
  destruct (for_each keys (S3_cleanup_key time_old dry_run) w)
    as [[evs w'] r] eqn:E.
  cbn [events final outcome fst snd] in *.
  unfold accounted, visits. cbn [events final outcome fst snd].
  cbn [List.app listed nows logs deletes flat_map].
  fold (listed evs) (nows evs) (logs evs) (deletes evs).
  rewrite Hl, app_nil_r.
  repeat split; try assumption.
  intros [[] Ha]. symmetry. now apply Hok.
Qed.

Lemma for_each_accounted {A} (body : A -> M Store unit) (xs : list A) :
  (forall x w, accounted time_old dry_run w (body x w)) ->
  forall w, accounted time_old dry_run w (for_each xs body w).
Proof.
  intros Hb. induction xs as [|x xs IH]; intros w; cbn [for_each].
  - unfold accounted; cbn. repeat split; try lia. now destruct dry_run.
  - specialize (Hb x w). specialize (IH (final (body x w))).
    unfold bind. revert Hb IH.
    destruct (body x w) as [[evs w1] [e|[]]]; cbn [final fst snd];
      intros Hb IH; [exact Hb|].
    assert (Hok : exists a, outcome (evs, w1, @inr exn unit tt) = inr a)
      by now exists tt.
    pose proof (accounted_app _ _ _ Hb Hok IH) as H.
    cbn [events final outcome fst snd] in H.
    now destruct (for_each xs body w1) as [[evs' w2] r].
Qed.

(** [S3_cleanup], once the runner and the connection are set up: the
    header is logged, the paths are listed, and the loop runs. *)
Lemma S3_cleanup_connected (glob_path : string) (conf : ConfPath)
    (w : World Store) :
  runner_init (store w) conf = ok tt ->
  make_s3_conn (store w) = ok tt ->
  S3_cleanup glob_path time_old dry_run conf w
  = match runner_ls (store w) glob_path with
    | inl e => (preamble glob_path time_old conf, w, inl e)
    | inr paths =>
        let o := for_each paths (S3_cleanup_path time_old dry_run) w in
        ((preamble glob_path time_old conf ++ events o)%list,
         final o, outcome o)
    end.
Proof.
  intros Hr Hc.
  unfold S3_cleanup, EMRJobRunner, runner_make_s3_conn, ls, log_info, emit,
    call, bind.
  rewrite Hr, Hc.
  destruct (runner_ls (store w) glob_path) as [e|paths]; [reflexivity|].
  cbn zeta.
  now destruct (for_each paths (S3_cleanup_path time_old dry_run) w)
    as [[evs w'] r].
Qed.

Lemma candidates_reports (vs : list (S3Key * datetime)) :
  flat_map (fun r => match r with LogDeleting n _ => [n] | _ => [] end)
           (map report vs)
  = map (fun v => name (fst v)) vs.
Proof.
  induction vs as [|v vs IH]; [reflexivity|].
  cbn [map flat_map report List.app]. now rewrite IH.
Qed.

(** The loop of [S3_cleanup] behind its preamble. *)
Lemma S3_cleanup_loop (glob_path : string) (conf : ConfPath)
    (w : World Store) (paths : list string) :
  runner_init (store w) conf = ok tt ->
  make_s3_conn (store w) = ok tt ->
  runner_ls (store w) glob_path = ok paths ->
  let o := S3_cleanup glob_path time_old dry_run conf w in
  let found := filter (qualifies time_old) (visits (events o)) in
  logs (events o) = LogCleanup glob_path time_old :: map report found
  /\ deletes (events o) = (if dry_run then [] else map fst found).
Proof.
  intros Hr Hc Hp. cbn zeta.
  rewrite (S3_cleanup_connected glob_path conf w Hr Hc), Hp. cbn zeta.
  destruct (for_each_accounted _ paths path_accounted w)
    as (_ & _ & Hg & Hd & _).
  set (o := for_each paths (S3_cleanup_path time_old dry_run) w) in *.
  change (events (preamble glob_path time_old conf ++ events o,
                  final o, outcome o))%list
    with (preamble glob_path time_old conf ++ events o)%list.
  assert (Hv : visits (preamble glob_path time_old conf ++ events o)
               = visits (events o)) by now rewrite visits_app.
  rewrite Hv, logs_app, deletes_app, Hg, Hd. now split.
Qed.

(** Whatever happens, a run of [S3_cleanup] accounts for its deletions
    and for the objects it reports; once connected it logs its header
    first. *)
Lemma S3_cleanup_accounted (glob_path : string) (conf : ConfPath)
    (w : World Store) :
  let o := S3_cleanup glob_path time_old dry_run conf w in
  let found := filter (qualifies time_old) (visits (events o)) in
  deletes (events o) = (if dry_run then [] else map fst found)
  /\ candidates (events o) = map (fun v => name (fst v)) found
  /\ (runner_init (store w) conf = ok tt ->
      make_s3_conn (store w) = ok tt ->
      logs (events o) = LogCleanup glob_path time_old :: map report found).
Proof.
  cbn zeta.
  destruct (runner_init (store w) conf) as [e|[]] eqn:Hr.
  { unfold S3_cleanup, EMRJobRunner, call, bind. rewrite Hr. cbn.
    repeat split; [now destruct dry_run | discriminate]. }
  destruct (make_s3_conn (store w)) as [e|[]] eqn:Hc.
  { unfold S3_cleanup, EMRJobRunner, runner_make_s3_conn, call, bind.
    rewrite Hr, Hc. cbn.
    repeat split; [now destruct dry_run | discriminate]. }
  destruct (runner_ls (store w) glob_path) as [e|paths] eqn:Hp.
  { rewrite (S3_cleanup_connected glob_path conf w Hr Hc), Hp. cbn.
    repeat split; now destruct dry_run. }
  destruct (S3_cleanup_loop glob_path conf w paths Hr Hc Hp) as [Hg Hd].
  cbn zeta in Hg, Hd. unfold candidates. rewrite Hg, Hd.
  cbn [flat_map List.app]. rewrite candidates_reports. now repeat split.
Qed.

Lemma map_fst_combine_same_length {A B} (l : list A) (n : list B) :
  List.length l = List.length n -> map fst (combine l n) = l.
Proof.
  revert n. induction l as [|x l IH]; intros [|t n]; cbn;
    try discriminate; [reflexivity|].
  intros [= H]. now rewrite IH.
Qed.

(** A run of [S3_cleanup] that completes has examined every key its
    listings produced, in order. *)
Lemma S3_cleanup_examines_all (glob_path : string) (conf : ConfPath)
    (w : World Store) :
  let o := S3_cleanup glob_path time_old dry_run conf w in
  outcome o = ok tt -> map fst (visits (events o)) = listed (events o).
Proof.
  cbn zeta.
  destruct (runner_init (store w) conf) as [e|[]] eqn:Hr.
  { unfold S3_cleanup, EMRJobRunner, call, bind. rewrite Hr. discriminate. }
  destruct (make_s3_conn (store w)) as [e|[]] eqn:Hc.
  { unfold S3_cleanup, EMRJobRunner, runner_make_s3_conn, call, bind.
    rewrite Hr, Hc. discriminate. }
  rewrite (S3_cleanup_connected glob_path conf w Hr Hc).
  destruct (runner_ls (store w) glob_path) as [e|paths]; [discriminate|].
  cbn zeta.
  destruct (for_each_accounted _ paths path_accounted w)
    as (_ & Hok & _).
  set (o := for_each paths (S3_cleanup_path time_old dry_run) w) in *.
  change (events (preamble glob_path time_old conf ++ events o,
                  final o, outcome o))%list
    with (preamble glob_path time_old conf ++ events o)%list.
  change (outcome (preamble glob_path time_old conf ++ events o,
                   final o, outcome o))%list
    with (outcome o).
  intros Ho. rewrite visits_app, listed_app by reflexivity.
  cbn [visits preamble listed nows flat_map combine List.app].
  fold (listed (events o)) (nows (events o)).
  apply map_fst_combine_same_length, Hok. now exists tt.
Qed.

End Accounting.

Section Found.

Context {Store : Type} {C : Collaborators Store}.

(** The keys found too old are among the keys listed, each as often
    as it was listed at most. *)
Lemma found_listed {A B} (q : A * B -> bool) (l : list A) (n : list B) (x : A) :
  In x (map fst (filter q (combine l n))) -> In x l.
Proof.
  revert n. induction l as [|y l IH]; intros [|t n]; cbn; try tauto.
  destruct (q (y, t)); cbn; [intros [->|H]|intros H]; eauto.
Qed.



(** A path that resolves to no object costs two calls and changes
    nothing. *)
Lemma path_lists_nothing (time_old : timedelta) (dry_run : bool)
    (path : string) (w : World Store) :
  lists_nothing (store w) path ->
  exists evs,
    S3_cleanup_path time_old dry_run path w = (evs, w, ok tt)
    /\ deletes evs = [] /\ logs evs = [] /\ nows evs = [].
Proof.
  intros (bucket_name & key_name & Hp & Hb & Hl).
  exists [EvGetBucket bucket_name; EvList bucket_name key_name []].
  split; [|now repeat split].
  unfold S3_cleanup_path, bind, lift, s3_conn_get_bucket, call, list_keys.
  rewrite Hp, Hb. cbn [rbind]. now rewrite Hl.
Qed.

Lemma paths_list_nothing (time_old : timedelta) (dry_run : bool)
    (paths : list string) (w : World Store) :
  Forall (lists_nothing (store w)) paths ->
  exists evs,
    for_each paths (S3_cleanup_path time_old dry_run) w = (evs, w, ok tt)
    /\ deletes evs = [] /\ logs evs = [] /\ nows evs = [].
Proof.
  induction 1 as [|path paths Hp _ IH]; cbn [for_each].
  - now exists [].
  - destruct (path_lists_nothing time_old dry_run path w Hp)
      as (e1 & E1 & D1 & L1 & N1).
    destruct IH as (e2 & E2 & D2 & L2 & N2).
    exists (e1 ++ e2)%list. unfold bind. rewrite E1, E2.
    rewrite deletes_app, logs_app, nows_app, D1, D2, L1, L2, N1, N2.
    now repeat split.
Qed.

End Found.

Section Sweep.

Context {Store : Type} {C : Collaborators Store}.
Variables (time_old : timedelta) (dry_run : bool).








(** Two lists of readings under which the same places of a listing
    qualify give the same keys. *)
Lemma found_agree {A B} (q : A * B -> bool) (l : list A) (n1 n2 : list B) :
  List.length n1 = List.length n2 ->
  (forall i k t1 t2,
      nth_error (combine l n1) i = Some (k, t1) ->
      nth_error (combine l n2) i = Some (k, t2) ->
      q (k, t2) = q (k, t1)) ->
  map fst (filter q (combine l n2)) = map fst (filter q (combine l n1))
  /\ map fst (combine l n2) = map fst (combine l n1).
Proof.
  revert n1 n2. induction l as [|x l IH]; intros [|t1 n1] [|t2 n2];
    cbn [List.length combine filter map]; try discriminate;
    try (now split).
  intros [= Hn] H.
  destruct (IH n1 n2 Hn (fun i => H (S i))) as [IH1 IH2].
  rewrite (H O x t1 t2 eq_refl eq_refl).
  destruct (q (x, t1)); cbn [map fst]; now rewrite ?IH1, IH2.
Qed.

End Sweep.

(* ===================================================================== *)
(** * The specification of the tool *)
(* ===================================================================== *)

Section Claims.

Context {Store : Type} {C : Collaborators Store}.


(** C2.  For a key whose time stamp parses, the test of line 70 is
    [now - last_modified > time_old] with a strict comparison: the key
    is reported, and deleted unless the run is dry, exactly when its age
    exceeds the threshold; at an age equal to the threshold it is
    neither. *)
Theorem deletion_decision (time_old : timedelta) (dry_run : bool)
    (key : S3Key) (lm : datetime) (w : World Store) :
  wf time_old ->
  strptime_ISO8601 (last_modified key) = ok lm ->
  let now := wall_clock (ticks w) in
  let o := S3_cleanup_key time_old dry_run key w in
  (too_old time_old now lm = true <-> total_us time_old < age now lm)
  /\ (age now lm = total_us time_old -> too_old time_old now lm = false)
  /\ candidates (events o)
     = (if too_old time_old now lm then [name key] else [])
  /\ deletes (events o)
     = (if too_old time_old now lm && negb dry_run then [key] else []).
Proof.
  intros (_ & Hs & Hu) E now o.
  pose proof (too_old_iff time_old now lm Hs Hu) as Hiff.
  destruct (key_examined time_old dry_run key w lm E) as [Hev _].
  fold now o in Hev.
  split; [exact Hiff|]. split.
  - intros Heq. apply not_true_is_false. intros T. apply Hiff in T. lia.
  - rewrite Hev. unfold candidates.
    destruct (too_old time_old now lm); [|now split].
    now destruct dry_run.
Qed.

(** C5.  When the threshold does not parse, [main] stops at line 45:
    the only calls made are those that set up logging; no runner and no
    connection is made, nothing is listed, nothing is deleted, and the
    store is as it was.  The error that leaves [main] is the parser's
    (or the usage error, when no URI was given). *)
Theorem main_stops_before_storage (options : Options) (args : list string)
    (w : World Store) (e : exn) :
  process_time (time options) = raise e ->
  let o := main options args w in
  storage_calls (events o) = []
  /\ deletes (events o) = []
  /\ listed (events o) = []
  /\ (forall ev, In ev (events o) ->
        exists logger level debug, ev = EvLogToStream logger level debug)
  /\ final o = w
  /\ outcome o = raise (match args with [] => SystemExit 2 | _ => e end).
Proof.
  intros He o. subst o. unfold main, option_parser_error, log_to_stream,
    emit, lift, bind, ret.
  destruct args as [|uri args]; [now repeat split|].
  rewrite He.
  destruct (quiet options); cbn; repeat split; try reflexivity;
    intros ev H; cbn in H; intuition (subst; eauto).
Qed.

(** C6, amended.  Once the runner and the connection are set up,
    [S3_cleanup] logs one header for its glob path,
    [Deleting all files in <glob path> that are older than <repr of the
    threshold> days old], and after it, for each examination that finds
    a key too old, [Deleting <name of the key>; is <elapsed> old]: the
    key is named by its name in the bucket, not by its URI. *)
Theorem log_lines (glob_path : string) (time_old : timedelta)
    (dry_run : bool) (conf : ConfPath) (w : World Store) :
  runner_init (store w) conf = ok tt ->
  make_s3_conn (store w) = ok tt ->
  let o := S3_cleanup glob_path time_old dry_run conf w in
  map render (logs (events o))
  = ("Deleting all files in " ++ glob_path ++ " that are older than "
       ++ td_repr time_old ++ " days old")
    :: map (fun v => "Deleting " ++ name (fst v) ++ "; is "
                       ++ td_str (elapsed v) ++ " old")
           (filter (qualifies time_old) (visits (events o))).
Proof.
  intros Hr Hc o.
  destruct (S3_cleanup_accounted time_old dry_run glob_path conf w)
    as (_ & _ & Hg).
  cbn zeta in Hg. fold o in Hg. rewrite (Hg Hr Hc).
  cbn [map render]. now rewrite map_map.
Qed.

(** C7.  When the glob path resolves to no object (the connection is
    set up, and [ls] yields no path or only paths whose listing is
    empty), [S3_cleanup] returns normally, has deleted and reported
    nothing and leaves the world as it was; the loop of [main] then goes
    on with the next URI. *)
Theorem nothing_to_delete (glob_path : string) (time_old : timedelta)
    (dry_run : bool) (conf : ConfPath) (w : World Store)
    (paths rest : list string) :
  runner_init (store w) conf = ok tt ->
  make_s3_conn (store w) = ok tt ->
  runner_ls (store w) glob_path = ok paths ->
  Forall (lists_nothing (store w)) paths ->
  let body := fun path => S3_cleanup path time_old dry_run conf in
  let o := S3_cleanup glob_path time_old dry_run conf w in
  outcome o = ok tt
  /\ deletes (events o) = []
  /\ candidates (events o) = []
  /\ final o = w
  /\ for_each (glob_path :: rest) body w
     = ((events o ++ events (for_each rest body w))%list,
        final (for_each rest body w),
        outcome (for_each rest body w)).
Proof.
  intros Hr Hc Hp Hn body o.
  destruct (paths_list_nothing time_old dry_run paths w Hn)
    as (evs & E & D & L & _).
  assert (Ho : o = ((preamble glob_path time_old conf ++ evs)%list, w, ok tt)).
  { unfold o. rewrite (S3_cleanup_connected _ _ _ _ _ Hr Hc), Hp.
    cbn zeta. now rewrite E. }
  assert (Hb : body glob_path w = o) by reflexivity.
  cbn [for_each]. unfold bind. rewrite Hb, Ho.
  cbn [events final outcome fst snd]. unfold candidates.
  rewrite deletes_app, logs_app, D, L.
  repeat split.
  now destruct (for_each rest body w) as [[evs' w'] r].
Qed.

(** C8, amended.  A dry run leaves the store as it was, and a second
    dry run started where the first ended examines the same objects in
    the same order, ends the same way and reports the same objects,
    provided no object crosses the threshold in between: each object is
    on the same side of the threshold when the second run examines it
    as when the first did. *)
Theorem dry_runs_agree_when_none_crosses (glob_path : string)
    (time_old : timedelta) (conf : ConfPath) (w : World Store) :
  wf time_old ->
  let first := S3_cleanup glob_path time_old true conf w in
  let second := S3_cleanup glob_path time_old true conf (final first) in
  (forall i key t1 t2 lm,
      nth_error (visits (events first)) i = Some (key, t1) ->
      nth_error (visits (events second)) i = Some (key, t2) ->
      strptime_ISO8601 (last_modified key) = ok lm ->
      (total_us time_old < age t2 lm <-> total_us time_old < age t1 lm)) ->
  store (final first) = store w
  /\ candidates (events second) = candidates (events first)
  /\ map fst (visits (events second)) = map fst (visits (events first))
  /\ outcome second = outcome first.
Proof.
  intros Hwf first second Hcross.
  destruct (read_only_S3_cleanup glob_path time_old conf w) as [Hs _].
  fold first in Hs.
  destruct (clock_blind_S3_cleanup glob_path time_old conf _ _ Hs)
    as (Hl & Hn & Ho & _).
  destruct (S3_cleanup_accounted time_old true glob_path conf w)
    as (_ & H1 & _).
  destruct (S3_cleanup_accounted time_old true glob_path conf (final first))
    as (_ & H2 & _).
  cbn zeta in H1, H2. fold first in H1, H2. fold second in Hl, Hn, Ho, H2.
  assert (Hq : forall i key t1 t2,
             nth_error (visits (events first)) i = Some (key, t1) ->
             nth_error (visits (events second)) i = Some (key, t2) ->
             qualifies time_old (key, t2) = qualifies time_old (key, t1)).
  { intros i key t1 t2 E1 E2. unfold qualifies. cbn [fst snd].
    destruct (strptime_ISO8601 (last_modified key)) as [e|lm] eqn:E;
      [reflexivity|].
    destruct Hwf as (_ & Hsec & Hus).
    pose proof (too_old_iff time_old t1 lm Hsec Hus) as I1.
    pose proof (too_old_iff time_old t2 lm Hsec Hus) as I2.
    pose proof (Hcross i key t1 t2 lm E1 E2 E) as Hc.
    destruct (too_old time_old t1 lm), (too_old time_old t2 lm);
      try reflexivity; exfalso.
    - assert (false = true) by (apply I2, Hc, I1; reflexivity).
      discriminate.
    - assert (false = true) by (apply I1, Hc, I2; reflexivity).
      discriminate. }
  unfold visits in *. rewrite Hl in *.
  destruct (found_agree (qualifies time_old) _ _ _ (eq_sym Hn) Hq)
    as [Hf Hv].
  split; [exact Hs|]. split; [|split; [exact Hv | exact Ho]].
  rewrite H1, H2, <- !(map_map fst name). f_equal. exact Hf.
Qed.

End Claims.

(* ===================================================================== *)
(** * The tool on the scenario of the specification *)
(* ===================================================================== *)

(** Path [s3://bucket/tmp/] holds [a], 40 days old, and [b], 10 days
    old; the threshold is 30 days and the run is not dry: only [a] is
    deleted, [b] remains, and one line reports [a]. *)
Example end_to_end :
  let o := @S3_cleanup _ Fake.ticking Fake.glob Fake.thirty_days false
             ConfDefault (Fake.world [Fake.a; Fake.b]) in
  deletes (events o) = [Fake.a]
  /\ store (final o) = [Fake.b]
  /\ candidates (events o) = ["tmp/a"]
  /\ outcome o = ok tt.
Proof. vm_compute. repeat split. Qed.

(** The same run, dry: the same report and nothing deleted. *)
Example end_to_end_dry :
  let o := @S3_cleanup _ Fake.ticking Fake.glob Fake.thirty_days true
             ConfDefault (Fake.world [Fake.a; Fake.b]) in
  deletes (events o) = []
  /\ store (final o) = [Fake.a; Fake.b]
  /\ candidates (events o) = ["tmp/a"]
  /\ outcome o = ok tt.
Proof. vm_compute. repeat split. Qed.

(** Ages of 31, 30 and 29 days against a threshold of 30 days. *)
Example thirty_one_days_is_too_old :
  too_old Fake.thirty_days (Fake.start + 31 * us_per_day) Fake.start = true.
Proof. reflexivity. Qed.

Example thirty_days_is_not_too_old :
  too_old Fake.thirty_days (Fake.start + 30 * us_per_day) Fake.start = false.
Proof. reflexivity. Qed.

Example twenty_nine_days_is_not_too_old :
  too_old Fake.thirty_days (Fake.start + 29 * us_per_day) Fake.start = false.
Proof. reflexivity. Qed.

Lemma wf_thirty_days : wf Fake.thirty_days.
Proof.
  unfold wf, max_delta_days, seconds_per_day, us_per_second. cbn. lia.
Qed.

(** The old objects of the scenario, read off the store. *)
Example old_objects_of_the_scenario :
  @old_objects _ Fake.ticking Fake.thirty_days false Fake.glob
    (Fake.world [Fake.a; Fake.b])
  = [Fake.a].
Proof. vm_compute. reflexivity. Qed.



(** C2 on [a], examined when the run of the scenario starts. *)
Lemma deletion_decision_on_scenario :
  let w := Fake.world [Fake.a; Fake.b] in
  let lm := Fake.instant "2011-01-01T00:00:00Z" in
  let now := @wall_clock _ Fake.ticking (ticks w) in
  let o := @S3_cleanup_key _ Fake.ticking Fake.thirty_days false Fake.a w in
  (too_old Fake.thirty_days now lm = true
   <-> total_us Fake.thirty_days < age now lm)
  /\ (age now lm = total_us Fake.thirty_days ->
      too_old Fake.thirty_days now lm = false)
  /\ candidates (events o)
     = (if too_old Fake.thirty_days now lm then [name Fake.a] else [])
  /\ deletes (events o)
     = (if too_old Fake.thirty_days now lm && negb false then [Fake.a]
        else []).
Proof.
  exact (@deletion_decision _ Fake.ticking Fake.thirty_days false Fake.a
           (Fake.instant "2011-01-01T00:00:00Z")
           (Fake.world [Fake.a; Fake.b]) wf_thirty_days eq_refl).
Defined.

(** C5 on the threshold ["abc"]. *)
Lemma main_stops_on_abc :
  let w := Fake.world [Fake.a; Fake.b] in
  let o := @main _ Fake.ticking
             (mk_options false false ConfDefault "abc" false)
             [Fake.glob] w in
  storage_calls (events o) = []
  /\ deletes (events o) = []
  /\ listed (events o) = []
  /\ (forall ev, In ev (events o) ->
        exists logger level debug, ev = EvLogToStream logger level debug)
  /\ final o = w
  /\ outcome o = raise ValueError.
Proof.
  exact (@main_stops_before_storage _ Fake.ticking
           (mk_options false false ConfDefault "abc" false)
           [Fake.glob] (Fake.world [Fake.a; Fake.b]) ValueError eq_refl).
Defined.

(** C6, as stated, fails: the line that reports [a] names it [tmp/a],
    its name in the bucket, and no line logged carries its URI,
    [s3://bucket/tmp/a]. *)
Lemma log_line_names_key_not_uri :
  let o := @S3_cleanup _ Fake.ticking Fake.glob Fake.thirty_days true
             ConfDefault (Fake.world [Fake.a; Fake.b]) in
  map render (logs (events o))
  = ["Deleting all files in s3://bucket/tmp/ that are older than datetime.timedelta(30) days old";
     "Deleting tmp/a; is 40 days, 0:00:00 old"]
  /\ key_uri Fake.a = "s3://bucket/tmp/a"
  /\ ~ In ("Deleting " ++ key_uri Fake.a ++ "; is 40 days, 0:00:00 old")
          (map render (logs (events o))).
Proof.
  vm_compute. split; [reflexivity|]. split; [reflexivity|].
  intros [H|[H|[]]]; discriminate H.
Qed.

(** C6, amended, on the scenario. *)
Lemma log_lines_on_scenario :
  let o := @S3_cleanup _ Fake.ticking Fake.glob Fake.thirty_days true
             ConfDefault (Fake.world [Fake.a; Fake.b]) in
  map render (logs (events o))
  = ("Deleting all files in " ++ Fake.glob ++ " that are older than "
       ++ td_repr Fake.thirty_days ++ " days old")
    :: map (fun v => "Deleting " ++ name (fst v) ++ "; is "
                       ++ td_str (@elapsed _ Fake.ticking v) ++ " old")
           (filter (@qualifies _ Fake.ticking Fake.thirty_days)
                   (visits (events o))).
Proof.
  exact (@log_lines _ Fake.ticking Fake.glob Fake.thirty_days true
           ConfDefault (Fake.world [Fake.a; Fake.b]) eq_refl eq_refl).
Defined.

(** C7 on [s3://bucket/logs/], under which the store of the scenario
    holds nothing. *)
Lemma nothing_to_delete_elsewhere :
  let w := Fake.world [Fake.a; Fake.b] in
  let body := fun path =>
    @S3_cleanup _ Fake.ticking path Fake.thirty_days false ConfDefault in
  let o := @S3_cleanup _ Fake.ticking "s3://bucket/logs/" Fake.thirty_days
             false ConfDefault w in
  outcome o = ok tt
  /\ deletes (events o) = []
  /\ candidates (events o) = []
  /\ final o = w
  /\ for_each ["s3://bucket/logs/"; Fake.glob] body w
     = ((events o ++ events (for_each [Fake.glob] body w))%list,
        final (for_each [Fake.glob] body w),
        outcome (for_each [Fake.glob] body w)).
Proof.
  exact (@nothing_to_delete _ Fake.ticking "s3://bucket/logs/"
           Fake.thirty_days false ConfDefault (Fake.world [Fake.a; Fake.b])
           [] [Fake.glob] eq_refl eq_refl eq_refl (Forall_nil _)).
Defined.

(** C8, as stated, fails: nothing touches the store between two dry
    runs, yet the first, a second before [a] turns 30 days old, reports
    nothing, and the second, an hour later, reports [a]. *)
Lemma dry_runs_differ_as_time_passes :
  let w := Fake.world [Fake.a] in
  let first := @S3_cleanup _ Fake.on_the_verge Fake.glob Fake.thirty_days
                 true ConfDefault w in
  let second := @S3_cleanup _ Fake.on_the_verge Fake.glob Fake.thirty_days
                  true ConfDefault (final first) in
  store (final first) = store w
  /\ candidates (events first) = []
  /\ candidates (events second) = ["tmp/a"].
Proof. vm_compute. repeat split. Qed.

(** C8, amended, on the scenario, with the clock a second further at
    each reading: [a] is past the threshold at both examinations and
    [b] within it, and both runs report [a]. *)
Lemma dry_runs_agree_as_the_clock_ticks :
  let w := Fake.world [Fake.a; Fake.b] in
  let first := @S3_cleanup _ Fake.ticking Fake.glob Fake.thirty_days true
                 ConfDefault w in
  let second := @S3_cleanup _ Fake.ticking Fake.glob Fake.thirty_days true
                  ConfDefault (final first) in
  store (final first) = store w
  /\ candidates (events second) = candidates (events first)
  /\ map fst (visits (events second)) = map fst (visits (events first))
  /\ outcome second = outcome first.
Proof.
  refine (@dry_runs_agree_when_none_crosses _ Fake.ticking Fake.glob
            Fake.thirty_days ConfDefault (Fake.world [Fake.a; Fake.b])
            wf_thirty_days _).
  intros i key t1 t2 lm H1 H2 E.
  destruct i as [|[|i]]; vm_compute in H1, H2.
  - inversion H1; subst. inversion H2; subst. vm_compute in E.
    inversion E; subst. vm_compute. tauto.
  - inversion H1; subst. inversion H2; subst. vm_compute in E.
    inversion E; subst. vm_compute. tauto.
  - destruct i; discriminate H1.
Defined.

(** The two dry runs of the scenario both report [a]. *)
Example two_dry_runs_of_the_scenario :
  let w := Fake.world [Fake.a; Fake.b] in
  let first := @S3_cleanup _ Fake.ticking Fake.glob Fake.thirty_days true
                 ConfDefault w in
  let second := @S3_cleanup _ Fake.ticking Fake.glob Fake.thirty_days true
                  ConfDefault (final first) in
  candidates (events first) = ["tmp/a"]
  /\ candidates (events second) = ["tmp/a"]
  /\ nows (events first) <> nows (events second).
Proof. vm_compute. repeat split. discriminate. Qed.

(* ===================================================================== *)
(** * More on the duration parser *)
(* ===================================================================== *)

Section DurationFacts.

Import PyFacts TdFacts.

Lemma unit_us_seconds (u : Unit) : unit_us u = unit_seconds u * 1000000.
Proof. now destruct u. Qed.

(** [duration] succeeds exactly within the range of [timedelta]. *)
Lemma duration_spec (u : Unit) (n : Z) :
  duration u n
  = if in_range u n then ok (normalize 0 0 (n * unit_us u))
    else raise OverflowError.
Proof.
  unfold duration, in_range. set (x := n * unit_us u).
  replace (- max_delta_days * us_per_day) with (-86399999913600000000)
    by reflexivity.
  replace ((max_delta_days + 1) * us_per_day) with 86400000000000000000
    by reflexivity.
  unfold max_delta_days, us_per_day.
  destruct (Z.leb_spec (-86399999913600000000) x) as [Hlo|Hlo];
    destruct (Z.ltb_spec x 86400000000000000000) as [Hhi|Hhi];
    cbn [andb].
  - assert (-999999999 <= x / 86400000000)
      by (apply Z.div_le_lower_bound; lia).
    assert (x / 86400000000 < 999999999 + 1)
      by (apply Z.div_lt_upper_bound; lia).
    destruct (Z.leb_spec (Z.abs (x / 86400000000)) 999999999);
      [reflexivity | lia].
  - assert (999999999 + 1 <= x / 86400000000)
      by (apply Z.div_le_lower_bound; lia).
    destruct (Z.leb_spec (Z.abs (x / 86400000000)) 999999999);
      [lia | reflexivity].
  - assert (x / 86400000000 < - 999999999)
      by (apply Z.div_lt_upper_bound; lia).
    destruct (Z.leb_spec (Z.abs (x / 86400000000)) 999999999);
      [lia | reflexivity].
  - lia.
Qed.

(** The duration of [n] units, field by field. *)
Lemma duration_fields (u : Unit) (n : Z) (t : timedelta) :
  duration u n = ok t ->
  let x := n * unit_seconds u in
  t = mk_timedelta (x / 86400) (x mod 86400) 0
  /\ - max_delta_days <= x / 86400 <= max_delta_days.
Proof.
  unfold duration. rewrite unit_us_seconds, Z.mul_assoc.
  unfold us_per_day. rewrite scale_div, normalize_whole.
  destruct (Z.leb_spec (Z.abs (n * unit_seconds u / 86400)) max_delta_days);
    [|discriminate].
  intros [= <-]. cbn zeta. split; [reflexivity | lia].
Qed.

End DurationFacts.

(** X1.  Whatever string it is given, a threshold the parser returns
    is a normalised [timedelta] of whole minutes: no microseconds, and
    seconds that are a multiple of 60. *)
Theorem process_time_whole_minutes (s : string) (t : timedelta) :
  process_time s = ok t ->
  wf t
  /\ microseconds t = 0
  /\ seconds t mod 60 = 0
  /\ total_us t mod (60 * us_per_second) = 0.
Proof.
  destruct (PyFacts.snoc_cases s) as [-> | (body & c & ->)]; [discriminate|].
  rewrite process_time_snoc. unfold int.
  destruct (int_literal (numeral_of body c)) as [n|]; [|discriminate].
  cbn [rbind]. intros H.
  destruct (duration_fields _ _ _ H) as [-> Hd]. cbn zeta in *.
  set (x := n * unit_seconds (unit_of c)) in *.
  assert (Hx : x mod 60 = 0).
  { unfold x. destruct (unit_of c); cbn [unit_seconds].
    - apply Z.mod_mul; lia.
    - replace (n * 3600) with (n * 60 * 60) by lia. apply Z.mod_mul; lia.
    - replace (n * 86400) with (n * 1440 * 60) by lia. apply Z.mod_mul; lia. }
  assert (Hs : (x mod 86400) mod 60 = 0).
  { pose proof (Z.div_mod x 86400 ltac:(lia)) as E.
    replace (x mod 86400) with (x + (- (x / 86400) * 1440) * 60) by lia.
    now rewrite Z.mod_add by lia. }
  pose proof (Z.mod_pos_bound x 86400 ltac:(lia)) as Hb.
  unfold wf, total_us, max_delta_days, seconds_per_day, us_per_second,
    us_per_day in *.
  cbn [days seconds microseconds].
  repeat split; try lia.
  pose proof (Z.div_mod (x mod 86400) 60 ltac:(lia)) as E.
  rewrite Hs in E.
  replace (x / 86400 * 86400000000 + x mod 86400 * 1000000 + 0)
    with ((x / 86400 * 1440 + (x mod 86400) / 60) * (60 * 1000000)) by lia.
  apply Z.mod_mul; lia.
Qed.

(** X1 on ["45m"]. *)
Lemma process_time_whole_minutes_45m :
  wf (mk_timedelta 0 2700 0)
  /\ microseconds (mk_timedelta 0 2700 0) = 0
  /\ seconds (mk_timedelta 0 2700 0) mod 60 = 0
  /\ total_us (mk_timedelta 0 2700 0) mod (60 * us_per_second) = 0.
Proof.
  exact (process_time_whole_minutes "45m" (mk_timedelta 0 2700 0) eq_refl).
Defined.

(** X2.  The four ways the parser ends, and no other: IndexError on the
    empty string; ValueError when the numeral is no integer;
    OverflowError when the integer is out of the range of [timedelta]
    for its unit; otherwise the duration of that many units. *)
Theorem process_time_cases (s : string) :
  (s = "" /\ process_time s = raise IndexError)
  \/ (exists body c,
         s = body ++ String c ""
         /\ int_literal (numeral_of body c) = None
         /\ process_time s = raise ValueError)
  \/ (exists body c n,
         s = body ++ String c ""
         /\ int_literal (numeral_of body c) = Some n
         /\ in_range (unit_of c) n = false
         /\ process_time s = raise OverflowError)
  \/ (exists body c n t,
         s = body ++ String c ""
         /\ int_literal (numeral_of body c) = Some n
         /\ in_range (unit_of c) n = true
         /\ process_time s = ok t
         /\ total_us t = n * unit_us (unit_of c)).
Proof.
  destruct (PyFacts.snoc_cases s) as [-> | (body & c & ->)];
    [left; now split | right].
  rewrite process_time_snoc. unfold int.
  destruct (int_literal (numeral_of body c)) as [n|] eqn:E; cbn [rbind].
  - right. rewrite duration_spec.
    destruct (in_range (unit_of c) n) eqn:R.
    + right. exists body, c, n, (normalize 0 0 (n * unit_us (unit_of c))).
      repeat split; try assumption.
      rewrite TdFacts.total_us_normalize. lia.
    + left. exists body, c, n. now repeat split.
  - left. exists body, c. now repeat split.
Qed.

(** X3.  On a printed integer followed by a unit suffix the parser
    returns the duration when it is in range and raises OverflowError
    when it is not: ["999999999d"] is the largest threshold in days,
    ["1000000000d"] overflows. *)
Theorem process_time_range (u : Unit) (n : Z) :
  process_time (fmt_d n ++ suffix u)
  = (if in_range u n then ok (normalize 0 0 (n * unit_us u))
     else raise OverflowError)
  /\ in_range Days 999999999 = true
  /\ in_range Days 1000000000 = false
  /\ in_range Days (-999999999) = true
  /\ in_range Days (-1000000000) = false.
Proof.
  split; [|now repeat split].
  rewrite process_time_suffix, PyFacts.int_fmt_d. cbn [rbind].
  apply duration_spec.
Qed.

(** X4.  The units agree with one another: [n] days is [24 n] hours,
    [n] hours is [60 n] minutes, and a bare [n] is [n] hours, as
    results or as errors. *)
Theorem process_time_units_agree (n : Z) :
  process_time (fmt_d n ++ "d") = process_time (fmt_d (24 * n) ++ "h")
  /\ process_time (fmt_d n ++ "h") = process_time (fmt_d (60 * n) ++ "m")
  /\ process_time (fmt_d n) = process_time (fmt_d n ++ "h").
Proof.
  rewrite (process_time_suffix _ Days), !(process_time_suffix _ Hours),
    (process_time_suffix _ Minutes), process_time_no_suffix.
  rewrite !PyFacts.int_fmt_d. cbn [rbind].
  rewrite !duration_spec. unfold in_range, unit_us, us_per_day, us_per_second.
  replace (24 * n * (3600 * 1000000)) with (n * 86400000000) by lia.
  replace (60 * n * (60 * 1000000)) with (n * (3600 * 1000000)) by lia.
  now repeat split.
Qed.

Section NumeralShapes.

Import PyFacts.

Lemma append_assoc' (a b c : string) : (a ++ b) ++ c = a ++ (b ++ c).
Proof. induction a as [|x a IH]; cbn; [reflexivity | now rewrite IH]. Qed.

Lemma append_nil_r (a : string) : a ++ "" = a.
Proof. induction a as [|x a IH]; cbn; [reflexivity | now rewrite IH]. Qed.

Lemma rstrip_snoc (x : string) (c : ascii) :
  isspace c = false -> rstrip (x ++ String c "") = x ++ String c "".
Proof.
  intros Hc. induction x as [|a x IH]; cbn [append rstrip].
  - now rewrite Hc.
  - rewrite IH. now destruct x.
Qed.

Lemma lstrip_snoc (x : string) (c : ascii) :
  isspace c = false -> exists t, lstrip (x ++ String c "") = t ++ String c "".
Proof.
  intros Hc. induction x as [|a x IH]; cbn [append lstrip].
  - rewrite Hc. now exists "".
  - destruct (isspace a); [exact IH | now exists (String a x)].
Qed.

(** Stripping keeps a final character that is no white space. *)
Lemma strip_snoc (x : string) (c : ascii) :
  isspace c = false -> exists t, strip (x ++ String c "") = t ++ String c "".
Proof.
  intros Hc. unfold strip. destruct (lstrip_snoc x c Hc) as [t ->].
  exists t. now apply rstrip_snoc.
Qed.

Lemma uint_of_string_only_digits (s : string) (d : uint) :
  NilEmpty.uint_of_string s = Some d -> only_digits s = true.
Proof.
  revert d. induction s as [|a s IH]; intros d; cbn [NilEmpty.uint_of_string
    only_digits]; [reflexivity|].
  destruct (NilEmpty.uint_of_string s) as [d'|]; [|discriminate].
  rewrite (IH d' eq_refl), andb_true_r.
  destruct a as [[|] [|] [|] [|] [|] [|] [|] [|]]; try discriminate;
    reflexivity.
Qed.

Lemma only_digits_snoc_nondigit (t : string) (c : ascii) :
  isdigit c = false -> only_digits (t ++ String c "") = false.
Proof.
  intros Hc. induction t as [|a t IH]; cbn [append only_digits].
  - now rewrite Hc.
  - rewrite IH. apply andb_false_r.
Qed.

Lemma digits_snoc_nondigit (t : string) (c : ascii) :
  isdigit c = false -> digits (t ++ String c "") = None.
Proof.
  intros Hc. unfold digits.
  destruct (t ++ String c "") eqn:E; [reflexivity|]. rewrite <- E.
  destruct (NilEmpty.uint_of_string (t ++ String c "")) as [d|] eqn:U;
    [|reflexivity].
  apply uint_of_string_only_digits in U.
  now rewrite (only_digits_snoc_nondigit t c Hc) in U.
Qed.

(** A string that, stripped, ends in a character that is no digit is no
    integer. *)
Lemma int_literal_nondigit_end (s t : string) (c : ascii) :
  strip s = t ++ String c "" -> isdigit c = false -> int_literal s = None.
Proof.
  intros E Hc. unfold int_literal. rewrite E.
  destruct t as [|c0 t]; cbn [append].
  - destruct (Ascii.eqb c "-"); [reflexivity|].
    destruct (Ascii.eqb c "+"); [reflexivity|].
    apply (digits_snoc_nondigit "" c Hc).
  - destruct (Ascii.eqb c0 "-");
      [now rewrite (digits_snoc_nondigit t c Hc)|].
    destruct (Ascii.eqb c0 "+"); [apply (digits_snoc_nondigit t c Hc)|].
    apply (digits_snoc_nondigit (String c0 t) c Hc).
Qed.

Lemma rstrip_allspace (p : string) : allspace p = true -> rstrip p = "".
Proof.
  induction p as [|a p IH]; cbn [allspace rstrip]; [reflexivity|].
  intros H. apply andb_true_iff in H as [Ha Hp].
  now rewrite (IH Hp), Ha.
Qed.

Lemma rstrip_app_allspace (s p : string) :
  allspace p = true -> rstrip (s ++ p) = rstrip s.
Proof.
  intros Hp. induction s as [|a s IH]; cbn [append rstrip].
  - now apply rstrip_allspace.
  - now rewrite IH.
Qed.

Lemma lstrip_allspace_app (p s : string) :
  allspace p = true -> lstrip (p ++ s) = lstrip s.
Proof.
  induction p as [|a p IH]; cbn [allspace append lstrip]; [reflexivity|].
  intros H. apply andb_true_iff in H as [Ha Hp]. rewrite Ha. now apply IH.
Qed.

Lemma allspace_snoc (p : string) :
  allspace p = true -> p <> "" ->
  exists p' c, p = p' ++ String c "" /\ isspace c = true.
Proof.
  induction p as [|a p IH]; [congruence|].
  cbn [allspace]. intros H _. apply andb_true_iff in H as [Ha Hp].
  destruct p as [|b p].
  - now exists "", a.
  - destruct (IH Hp ltac:(discriminate)) as (p' & c & E & Hc).
    exists (String a p'), c. split; [|exact Hc]. cbn [append]. now rewrite <- E.
Qed.

Lemma isspace_no_unit (c : ascii) :
  isspace c = true -> unit_of_char c = None /\ isdigit c = false.
Proof.
  destruct c as [[|] [|] [|] [|] [|] [|] [|] [|]];
    try discriminate; intros _; split; reflexivity.
Qed.

Lemma nospace_fmt_d (n : Z) : nospace (fmt_d n) = true /\ fmt_d n <> "".
Proof.
  assert (Hu : forall p,
    nospace (NilZero.string_of_uint (Pos.to_uint p)) = true
    /\ NilZero.string_of_uint (Pos.to_uint p) <> "").
  { intros p.
    assert (E : NilZero.string_of_uint (Pos.to_uint p)
                = NilEmpty.string_of_uint (Pos.to_uint p)).
    { destruct (Pos.to_uint p) eqn:E'; try reflexivity.
      now destruct (to_uint_nonnil p). }
    rewrite E. split.
    - apply only_digits_nospace, only_digits_uint.
    - pose proof (to_uint_nonnil p).
      destruct (Pos.to_uint p); cbn; congruence. }
  unfold fmt_d. destruct n as [|p|p]; cbn [Z.to_int NilZero.string_of_int].
  - split; [reflexivity | discriminate].
  - apply Hu.
  - destruct (Hu p) as [H1 H2]. split; [|discriminate].
    cbn [nospace]. now rewrite H1.
Qed.

(** White space around a printed integer is stripped. *)
Lemma strip_padded (p1 p2 : string) (n : Z) :
  allspace p1 = true -> allspace p2 = true ->
  strip (p1 ++ fmt_d n ++ p2) = fmt_d n.
Proof.
  intros H1 H2. destruct (nospace_fmt_d n) as [Hn Hne].
  unfold strip. rewrite (lstrip_allspace_app _ _ H1).
  assert (E : lstrip (fmt_d n ++ p2) = fmt_d n ++ p2).
  { destruct (fmt_d n) as [|c s]; [congruence|].
    cbn [nospace] in Hn. apply andb_true_iff in Hn as [Hc _].
    cbn [append lstrip]. now destruct (isspace c). }
  rewrite E, (rstrip_app_allspace _ _ H2). now apply rstrip_nospace.
Qed.

Lemma int_padded (p1 p2 : string) (n : Z) :
  allspace p1 = true -> allspace p2 = true ->
  int (p1 ++ fmt_d n ++ p2) = ok n.
Proof.
  intros H1 H2. pose proof (int_fmt_d n) as H.
  unfold int, int_literal in *.
  rewrite (strip_nospace _ (proj1 (nospace_fmt_d n))) in H.
  now rewrite (strip_padded p1 p2 n H1 H2).
Qed.

End NumeralShapes.

(** X5.  The suffixes are [m], [h] and [d], in lower case, and nothing
    else: a string that ends in any other character that is neither a
    digit nor white space makes the parser raise ValueError, whatever
    comes before. *)
Theorem process_time_unknown_suffix (body : string) (c : ascii) :
  unit_of_char c = None ->
  isdigit c = false ->
  isspace c = false ->
  process_time (body ++ String c "") = raise ValueError.
Proof.
  intros Hu Hd Hs. rewrite process_time_snoc. unfold numeral_of. rewrite Hu.
  destruct (strip_snoc body c Hs) as [t E].
  unfold int. now rewrite (int_literal_nondigit_end _ t c E Hd).
Qed.

(** X5 on ["5H"], ["2w"] and ["90s"]. *)
Lemma process_time_unknown_suffix_examples :
  process_time "5H" = raise ValueError
  /\ process_time "2w" = raise ValueError
  /\ process_time "90s" = raise ValueError.
Proof.
  split; [|split].
  - exact (process_time_unknown_suffix "5" "H" eq_refl eq_refl eq_refl).
  - exact (process_time_unknown_suffix "2" "w" eq_refl eq_refl eq_refl).
  - exact (process_time_unknown_suffix "90" "s" eq_refl eq_refl eq_refl).
Defined.

(** X6.  White space around the numeral does not matter, before a unit
    suffix or without one: [int()] strips it. *)
Theorem process_time_padded (p1 p2 : string) (u : Unit) (n : Z) :
  allspace p1 = true ->
  allspace p2 = true ->
  process_time (p1 ++ fmt_d n ++ p2 ++ suffix u) = duration u n
  /\ process_time (p1 ++ fmt_d n ++ p2) = duration Hours n.
Proof.
  intros H1 H2. split.
  - replace (p1 ++ fmt_d n ++ p2 ++ suffix u)
      with ((p1 ++ fmt_d n ++ p2) ++ suffix u)
      by now rewrite !append_assoc'.
    now rewrite process_time_suffix, (int_padded p1 p2 n H1 H2).
  - destruct p2 as [|a p2].
    + rewrite append_nil_r. destruct (fmt_d_snoc n) as (s & c & E & Hc).
      rewrite E, <- append_assoc', process_time_snoc.
      unfold numeral_of, unit_of. rewrite (isdigit_no_unit _ Hc).
      rewrite append_assoc', <- E.
      pose proof (int_padded p1 "" n H1 eq_refl) as Hi.
      rewrite append_nil_r in Hi. now rewrite Hi.
    + destruct (allspace_snoc (String a p2) H2 ltac:(discriminate))
        as (p' & c & E & Hc).
      destruct (isspace_no_unit c Hc) as [Hu _].
      rewrite E, <- !append_assoc', process_time_snoc.
      unfold numeral_of, unit_of. rewrite Hu.
      rewrite !append_assoc', <- E.
      now rewrite (int_padded p1 _ n H1 H2).
Qed.

(** X6 on [" 5 h"] and [" 5 "]. *)
Lemma process_time_padded_examples :
  process_time " 5 h" = duration Hours 5
  /\ process_time " 5 " = duration Hours 5.
Proof.
  exact (process_time_padded " " " " Hours 5 eq_refl eq_refl).
Defined.

(** X7.  White space after the unit suffix is not stripped away before
    the suffix is looked for: the final character is then no suffix,
    the whole string is the numeral, and the parser raises ValueError. *)
Theorem process_time_space_after_suffix (p : string) (u : Unit) (n : Z) :
  allspace p = true ->
  p <> "" ->
  process_time (fmt_d n ++ suffix u ++ p) = raise ValueError.
Proof.
  intros Hp Hne.
  destruct (allspace_snoc p Hp Hne) as (p' & c & E & Hc).
  destruct (isspace_no_unit c Hc) as [Hu _].
  assert (Es : fmt_d n ++ suffix u ++ p
               = (fmt_d n ++ suffix u ++ p') ++ String c "")
    by now rewrite E, !append_assoc'.
  rewrite Es, process_time_snoc. unfold numeral_of. rewrite Hu, <- Es.
  assert (Et : strip (fmt_d n ++ suffix u ++ p) = fmt_d n ++ suffix u).
  { destruct (nospace_fmt_d n) as [Hn Hnn].
    unfold strip.
    assert (El : lstrip (fmt_d n ++ suffix u ++ p)
                 = fmt_d n ++ suffix u ++ p).
    { destruct (fmt_d n) as [|a s]; [congruence|].
      cbn [nospace] in Hn. apply andb_true_iff in Hn as [Ha _].
      cbn [append lstrip]. now destruct (isspace a). }
    rewrite El, <- append_assoc', (rstrip_app_allspace _ _ Hp).
    apply PyFacts.rstrip_nospace.
    clear - Hn. induction (fmt_d n) as [|a s IH]; cbn [append nospace] in *.
    - now destruct u.
    - apply andb_true_iff in Hn as [Ha Hs]. now rewrite Ha, IH. }
  unfold int. rewrite suffix_snoc in Et.
  rewrite (int_literal_nondigit_end _ _ _ Et); [reflexivity | now destruct u].
Qed.

(** X7 on ["5h "]. *)
Lemma process_time_space_after_suffix_example :
  process_time "5h " = raise ValueError.
Proof.
  exact (process_time_space_after_suffix " " Hours 5 eq_refl
           ltac:(discriminate)).
Defined.

(* ===================================================================== *)
(** * More on runs *)
(* ===================================================================== *)

Section Loops.

Context {Store : Type}.

Lemma run_ext {A} (o1 o2 : list Event * World Store * result A) :
  events o1 = events o2 -> final o1 = final o2 -> outcome o1 = outcome o2 ->
  o1 = o2.
Proof.
  destruct o1 as [[e1 w1] r1], o2 as [[e2 w2] r2]. cbn. now intros -> -> ->.
Qed.

Lemma bind_assoc {A B D} (m : M Store A) (f : A -> M Store B)
    (g : B -> M Store D) (w : World Store) :
  bind (bind m f) g w = bind m (fun a => bind (f a) g) w.
Proof.
  unfold bind. destruct (m w) as [[e1 w1] [e|a]]; [reflexivity|].
  destruct (f a w1) as [[e2 w2] [e|b]]; [reflexivity|].
  destruct (g b w2) as [[e3 w3] r]. now rewrite app_assoc.
Qed.

Lemma bind_ext {A B} (m : M Store A) (f g : A -> M Store B)
    (w : World Store) :
  (forall a w', f a w' = g a w') -> bind m f w = bind m g w.
Proof.
  intros H. unfold bind. destruct (m w) as [[e1 w1] [e|a]]; [reflexivity|].
  now rewrite H.
Qed.

Lemma bind_ret_l {A B} (a : A) (f : A -> M Store B) (w : World Store) :
  bind (ret a) f w = f a w.
Proof. unfold bind, ret. now destruct (f a w) as [[evs w'] r]. Qed.

(** A loop over [xs ++ ys] is the loop over [xs], then over [ys]. *)
Lemma for_each_app {A} (xs ys : list A) (body : A -> M Store unit)
    (w : World Store) :
  for_each (xs ++ ys) body w
  = bind (for_each xs body) (fun _ => for_each ys body) w.
Proof.
  revert w. induction xs as [|x xs IH]; intros w; cbn [List.app for_each].
  - now rewrite bind_ret_l.
  - rewrite bind_assoc. apply bind_ext. intros _ w'. apply IH.
Qed.

(** A loop stops at the first item whose body raises: what was done
    for the items before it stands, the items after it are not reached. *)
Lemma for_each_stops {A} (pre post : list A) (x : A)
    (body : A -> M Store unit) (w : World Store) (e : exn) :
  outcome (for_each pre body w) = ok tt ->
  outcome (body x (final (for_each pre body w))) = raise e ->
  for_each (pre ++ x :: post) body w
  = ((events (for_each pre body w)
      ++ events (body x (final (for_each pre body w))))%list,
     final (body x (final (for_each pre body w))),
     raise e).
Proof.
  intros Hpre Hx. rewrite for_each_app. unfold bind at 1.
  destruct (for_each pre body w) as [[e1 w1] r1].
  cbn [events final outcome fst snd] in *. subst r1.
  cbn [for_each]. unfold bind.
  destruct (body x w1) as [[e2 w2] r2].
  cbn [events final outcome fst snd] in *. now subst r2.
Qed.

End Loops.

Section KeyLoop.

Context {Store : Type} {C : Collaborators Store}.

(** X8.  A key whose [last_modified] does not parse stops the loop
    over a listing with the parser's error: the keys before it have
    been examined, and deleted when too old, and that stands; the keys
    after it are not examined, and the clock is not read for it. *)
Theorem unparsed_key_stops_the_listing (time_old : timedelta)
    (dry_run : bool) (pre post : list S3Key) (bad : S3Key)
    (w : World Store) (e : exn) :
  strptime_ISO8601 (last_modified bad) = raise e ->
  outcome (for_each pre (S3_cleanup_key time_old dry_run) w) = ok tt ->
  for_each (pre ++ bad :: post) (S3_cleanup_key time_old dry_run) w
  = (events (for_each pre (S3_cleanup_key time_old dry_run) w),
     final (for_each pre (S3_cleanup_key time_old dry_run) w),
     raise e).
Proof.
  intros Hbad Hpre.
  rewrite (for_each_stops pre post bad _ w e Hpre);
    rewrite (key_unparsed time_old dry_run bad _ e Hbad);
    [|reflexivity].
  cbn [events final fst snd]. now rewrite app_nil_r.
Qed.

End KeyLoop.
Section MainFrame.

Context {Store : Type} {C : Collaborators Store}.

(** The shape of [main]: a usage error, or the logging set up, then
    the parser's error or the loop over the URIs. *)
Lemma main_unfold (options : Options) (args : list string)
    (w : World Store) :
  main options args w
  = match args with
    | [] => ([], w, raise (SystemExit 2))
    | _ =>
        match process_time (time options) with
        | inl e => (logging_setup options, w, raise e)
        | inr time_old =>
            let o := for_each args (fun path =>
                       S3_cleanup path time_old (test options)
                                  (conf_path options)) w in
            ((logging_setup options ++ events o)%list, final o, outcome o)
        end
    end.
Proof.
  unfold main, option_parser_error, log_to_stream, logging_setup, emit, lift,
    bind, ret.
  destruct args as [|uri args]; [reflexivity|].
  destruct (process_time (time options)) as [e|time_old];
    [now destruct (quiet options)|].
  cbn zeta.
  destruct (quiet options); cbn [negb];
    now destruct (for_each (uri :: args) _ w) as [[evs w'] r].
Qed.

Lemma deletes_logging_setup (options : Options) :
  deletes (logging_setup options) = [] /\ logs (logging_setup options) = []
  /\ listed (logging_setup options) = [] /\ nows (logging_setup options) = [].
Proof. unfold logging_setup. now destruct (quiet options). Qed.

(** X12.  With [--test], [main] deletes nothing and leaves the store as
    it was, whatever the other options and the URIs, and whether it
    completes or not. *)
Theorem main_test_is_read_only (options : Options) (args : list string) :
  test options = true -> read_only (main options args).
Proof.
  intros Ht w. rewrite main_unfold.
  destruct args as [|uri args]; [now split|].
  destruct (process_time (time options)) as [e|time_old].
  - cbn [events final fst snd].
    now rewrite (proj1 (deletes_logging_setup options)).
  - cbn zeta. cbn [events final fst snd].
    rewrite deletes_app, (proj1 (deletes_logging_setup options)), Ht.
    cbn [List.app].
    apply (read_only_for_each (uri :: args)). intros path.
    apply read_only_S3_cleanup.
Qed.

End MainFrame.

Section Announced.

Context {Store : Type} {C : Collaborators Store}.

Lemma announced_nil : announced [].
Proof. intros [|x pre] key post H; discriminate H. Qed.

Lemma announced_app (a b : list Event) :
  announced a -> announced b -> announced (a ++ b).
Proof.
  intros Ha Hb pre key post H.
  apply app_eq_app in H as [l [[E1 E2]|[E1 E2]]].
  - destruct l as [|x l].
    + cbn in E2. destruct (Hb [] key post (eq_sym E2)) as (p & d & E).
      now destruct p.
    + injection E2 as <- E2.
      apply (Ha pre key l). now rewrite E1.
  - destruct (Hb l key post E2) as (p & d & ->).
    exists (a ++ p)%list, d. now rewrite E1, app_assoc.
Qed.

(** A trace without a delete call. *)
Lemma announced_quiet (evs : list Event) : deletes evs = [] -> announced evs.
Proof.
  intros H pre key post E. rewrite E, deletes_app in H.
  cbn in H. now destruct (deletes pre).
Qed.

Lemma announced_bind {A B} (m : M Store A) (f : A -> M Store B) :
  (forall w, announced (events (m w))) ->
  (forall a w, announced (events (f a w))) ->
  forall w, announced (events (bind m f w)).
Proof.
  intros Hm Hf w. rewrite events_bind.
  destruct (outcome (m w)); [apply Hm | apply announced_app; auto].
Qed.

Lemma announced_for_each {A} (xs : list A) (body : A -> M Store unit) :
  (forall x w, announced (events (body x w))) ->
  forall w, announced (events (for_each xs body w)).
Proof.
  intros Hb. induction xs as [|x xs IH]; cbn [for_each].
  - intros w. apply announced_nil.
  - apply announced_bind; [apply Hb | intros _; exact IH].
Qed.

(** Lines 71-74: the record is logged, then the key deleted. *)
Lemma announced_key (time_old : timedelta) (dry_run : bool) (key : S3Key)
    (w : World Store) :
  announced (events (S3_cleanup_key time_old dry_run key w)).
Proof.
  destruct (strptime_ISO8601 (last_modified key)) as [e|lm] eqn:E.
  - rewrite (key_unparsed _ _ _ _ _ E). apply announced_nil.
  - destruct (key_examined time_old dry_run key w lm E) as [-> _].
    destruct (too_old time_old (wall_clock (ticks w)) lm);
      [|now apply announced_quiet].
    destruct dry_run; [now apply announced_quiet|].
    intros pre k post H.
    destruct pre as [|x1 [|x2 [|x3 pre]]]; inversion H; subst.
    + eexists [EvNow _], _. reflexivity.
    + now destruct pre.
Qed.

Lemma announced_S3_cleanup (glob_path : string) (time_old : timedelta)
    (dry_run : bool) (conf : ConfPath) (w : World Store) :
  announced (events (S3_cleanup glob_path time_old dry_run conf w)).
Proof.
  revert w. unfold S3_cleanup.
  apply announced_bind; [intros w; now apply announced_quiet | intros _].
  apply announced_bind; [intros w; now apply announced_quiet | intros _].
  apply announced_bind; [intros w; now apply announced_quiet | intros _].
  apply announced_bind; [intros w; now apply announced_quiet | intros paths].
  apply announced_for_each. intros path. unfold S3_cleanup_path.
  apply announced_bind; [intros w; now apply announced_quiet|].
  intros [bucket_name key_name].
  apply announced_bind; [intros w; now apply announced_quiet | intros bucket].
  apply announced_bind.
  { intros w. apply announced_quiet, read_only_list_keys. }
  intros keys. apply announced_for_each. intros key.
  apply announced_key.
Qed.

(** X10.  Nothing is deleted unannounced: in every run of [S3_cleanup]
    and of [main], each call of [key.delete()] comes right after the
    log record [Deleting <name of that key>; is ... old]. *)
Theorem every_delete_is_announced :
  (forall glob_path time_old dry_run conf w,
      announced (events (S3_cleanup glob_path time_old dry_run conf w)))
  /\ (forall options args w, announced (events (main options args w))).
Proof.
  split; [exact announced_S3_cleanup|].
  intros options args w. rewrite main_unfold.
  destruct args as [|uri args]; [apply announced_nil|].
  destruct (process_time (time options)) as [e|time_old].
  - apply announced_quiet, deletes_logging_setup.
  - cbn zeta. cbn [events fst].
    apply announced_app; [apply announced_quiet, deletes_logging_setup|].
    apply (announced_for_each (uri :: args)). intros path.
    apply announced_S3_cleanup.
Qed.

End Announced.

Section DryAndWet.

Context {Store : Type} {C : Collaborators Store}.

Lemma same_unless_deleting_refl {A} (m : M Store A) :
  same_unless_deleting m m.
Proof. now intros w. Qed.

Lemma same_unless_deleting_bind {A B} (m1 m2 : M Store A)
    (f1 f2 : A -> M Store B) :
  same_unless_deleting m1 m2 ->
  (forall a, same_unless_deleting (f1 a) (f2 a)) ->
  same_unless_deleting (bind m1 f1) (bind m2 f2).
Proof.
  intros Hm Hf w. rewrite events_bind. intros H.
  assert (H1 : deletes (events (m1 w)) = []).
  { destruct (outcome (m1 w)); [exact H|].
    rewrite deletes_app in H. now apply app_eq_nil in H. }
  specialize (Hm w H1). unfold bind. rewrite <- Hm.
  destruct (m1 w) as [[e1 w1] [e|a]]; [reflexivity|].
  cbn [events final outcome fst snd] in H.
  rewrite deletes_app in H. apply app_eq_nil in H as [_ H2].
  now rewrite (Hf a w1 H2).
Qed.

Lemma same_unless_deleting_for_each {A} (xs : list A)
    (b1 b2 : A -> M Store unit) :
  (forall x, same_unless_deleting (b1 x) (b2 x)) ->
  same_unless_deleting (for_each xs b1) (for_each xs b2).
Proof.
  intros Hb. induction xs as [|x xs IH]; cbn [for_each].
  - apply same_unless_deleting_refl.
  - apply same_unless_deleting_bind; [apply Hb | intros _; exact IH].
Qed.

Lemma same_unless_deleting_S3_cleanup (glob_path : string)
    (time_old : timedelta) (conf : ConfPath) :
  same_unless_deleting (S3_cleanup glob_path time_old false conf)
                       (S3_cleanup glob_path time_old true conf).
Proof.
  unfold S3_cleanup.
  do 4 (apply same_unless_deleting_bind;
        [apply same_unless_deleting_refl | intros ?]).
  apply same_unless_deleting_for_each. intros path. unfold S3_cleanup_path.
  apply same_unless_deleting_bind;
    [apply same_unless_deleting_refl | intros [bucket_name key_name]].
  do 2 (apply same_unless_deleting_bind;
        [apply same_unless_deleting_refl | intros ?]).
  apply same_unless_deleting_for_each. intros key. unfold S3_cleanup_key.
  do 2 (apply same_unless_deleting_bind;
        [apply same_unless_deleting_refl | intros ?]).
  destruct (td_gt _ _); [|apply same_unless_deleting_refl].
  apply same_unless_deleting_bind;
    [apply same_unless_deleting_refl | intros _].
  intros w. unfold delete. cbn [negb].
  destruct (key_delete (store w) key); discriminate.
Qed.

(** X14.  A run that is not dry and deletes nothing is the dry run:
    the same calls, the same log, the same result. *)
Theorem run_without_deletes_is_dry (glob_path : string)
    (time_old : timedelta) (conf : ConfPath) (w : World Store) :
  deletes (events (S3_cleanup glob_path time_old false conf w)) = [] ->
  S3_cleanup glob_path time_old false conf w
  = S3_cleanup glob_path time_old true conf w.
Proof. apply same_unless_deleting_S3_cleanup. Qed.

End DryAndWet.

Section MainLoop.

Context {Store : Type} {C : Collaborators Store}.

(** X11.  [main] stops at the first URI whose cleanup raises, with
    that error: the URIs before it have been cleaned up, and that
    stands; the URIs after it are not touched. *)
Theorem main_stops_at_first_failure (options : Options)
    (pre post : list string) (uri : string) (w : World Store)
    (time_old : timedelta) (e : exn) :
  process_time (time options) = ok time_old ->
  let body := fun path =>
    S3_cleanup path time_old (test options) (conf_path options) in
  let before := for_each pre body w in
  outcome before = ok tt ->
  outcome (body uri (final before)) = raise e ->
  main options (pre ++ uri :: post) w
  = ((logging_setup options ++ events before
        ++ events (body uri (final before)))%list,
     final (body uri (final before)),
     raise e).
Proof.
  intros Ht body before Hpre Huri. rewrite main_unfold, Ht.
  destruct (pre ++ uri :: post)%list as [|x l] eqn:E;
    [now destruct pre|].
  rewrite <- E. cbn zeta. fold body.
  now rewrite (for_each_stops pre post uri body w e Hpre Huri).
Qed.

Lemma candidates_app (a b : list Event) :
  candidates (a ++ b) = (candidates a ++ candidates b)%list.
Proof. unfold candidates. now rewrite logs_app, flat_map_app. Qed.

Lemma tallied_app (time_old : timedelta) (dry_run : bool) {A B}
    (o1 : list Event * World Store * result A)
    (o2 : list Event * World Store * result B) :
  tallied time_old dry_run o1 ->
  (exists a, outcome o1 = inr a) ->
  tallied time_old dry_run o2 ->
  tallied time_old dry_run
    ((events o1 ++ events o2)%list, final o2, outcome o2).
Proof.
  intros (H1le & H1ok & H1c & H1d) Hok (H2le & H2ok & H2c & H2d).
  specialize (H1ok Hok). unfold tallied. cbn [events final outcome fst snd].
  rewrite listed_app, nows_app, candidates_app, deletes_app, !length_app.
  rewrite (visits_app _ _ H1ok), filter_app, !map_app.
  rewrite H1c, H2c, H1d, H2d.
  repeat split; try lia.
  - intros Hex. specialize (H2ok Hex). lia.
  - now destruct dry_run.
Qed.

(** A run that stops before any listing has nothing to tally. *)
Lemma tallied_stopped (time_old : timedelta) (dry_run : bool) {A}
    (evs : list Event) (w : World Store) (r : result A) :
  listed evs = [] -> nows evs = [] -> logs evs = [] -> deletes evs = [] ->
  tallied time_old dry_run (evs, w, r).
Proof.
  intros Hl Hn Hg Hd. unfold tallied, visits, candidates.
  cbn [events final outcome fst snd]. rewrite Hl, Hn, Hg, Hd. cbn.
  repeat split; try lia. now destruct dry_run.
Qed.

Lemma tallied_S3_cleanup (glob_path : string) (time_old : timedelta)
    (dry_run : bool) (conf : ConfPath) (w : World Store) :
  tallied time_old dry_run (S3_cleanup glob_path time_old dry_run conf w).
Proof.
  destruct (runner_init (store w) conf) as [e|[]] eqn:Hr.
  { unfold S3_cleanup, EMRJobRunner, call, bind. rewrite Hr.
    now apply tallied_stopped. }
  destruct (make_s3_conn (store w)) as [e|[]] eqn:Hc.
  { unfold S3_cleanup, EMRJobRunner, runner_make_s3_conn, call, bind.
    rewrite Hr, Hc. now apply tallied_stopped. }
  destruct (S3_cleanup_accounted time_old dry_run glob_path conf w)
    as (Hd & Hcand & _).
  cbn zeta in Hd, Hcand.
  unfold tallied. rewrite Hd, Hcand.
  rewrite (S3_cleanup_connected time_old dry_run glob_path conf w Hr Hc).
  destruct (runner_ls (store w) glob_path) as [e|paths].
  { cbn. repeat split; lia. }
  cbn zeta.
  destruct (for_each_accounted time_old dry_run _ paths
              (path_accounted time_old dry_run) w) as (Hle & Hok & _).
  set (o := for_each paths (S3_cleanup_path time_old dry_run) w) in *.
  change (events (preamble glob_path time_old conf ++ events o,
                  final o, outcome o))%list
    with (preamble glob_path time_old conf ++ events o)%list.
  change (outcome (preamble glob_path time_old conf ++ events o,
                   final o, outcome o))%list
    with (outcome o).
  rewrite listed_app, nows_app. cbn [preamble listed nows flat_map List.app].
  fold (listed (events o)) (nows (events o)).
  now repeat split.
Qed.

Lemma tallied_for_each (time_old : timedelta) (dry_run : bool) {A}
    (body : A -> M Store unit) (xs : list A) :
  (forall x w, tallied time_old dry_run (body x w)) ->
  forall w, tallied time_old dry_run (for_each xs body w).
Proof.
  intros Hb. induction xs as [|x xs IH]; intros w; cbn [for_each].
  - now apply tallied_stopped.
  - specialize (Hb x w). specialize (IH (final (body x w))).
    unfold bind. revert Hb IH.
    destruct (body x w) as [[evs w1] [e|[]]]; cbn [final fst snd];
      intros Hb IH; [exact Hb|].
    assert (Hok : exists a, outcome (evs, w1, @inr exn unit tt) = inr a)
      by now exists tt.
    pose proof (tallied_app _ _ _ _ Hb Hok IH) as H.
    cbn [events final outcome fst snd] in H.
    now destruct (for_each xs body w1) as [[evs' w2] r].
Qed.

Lemma main_tallied (options : Options) (args : list string)
    (w : World Store) (time_old : timedelta) :
  process_time (time options) = ok time_old ->
  tallied time_old (test options) (main options args w).
Proof.
  intros Ht. rewrite main_unfold, Ht.
  destruct args as [|uri args]; [now apply tallied_stopped|].
  cbn zeta.
  set (body := fun path =>
         S3_cleanup path time_old (test options) (conf_path options)).
  destruct (deletes_logging_setup options) as (Hd & Hg & Hl & Hn).
  apply (tallied_app time_old (test options)
           (logging_setup options, w, @inr exn unit tt)
           (for_each (uri :: args) body w)).
  - now apply tallied_stopped.
  - now exists tt.
  - apply tallied_for_each. intros path w'. apply tallied_S3_cleanup.
Qed.

(** X13.  [main] keeps account over all its URIs: when the threshold
    parses, the keys it deletes are, in order, the keys of the
    examinations that found the object older than that threshold, none
    when [--test] is given; the keys it reports are those in either
    case; and a run that completes has examined every key listed. *)
Theorem main_accounts (options : Options) (args : list string)
    (w : World Store) (time_old : timedelta) :
  process_time (time options) = ok time_old ->
  let o := main options args w in
  let found := filter (qualifies time_old) (visits (events o)) in
  deletes (events o) = (if test options then [] else map fst found)
  /\ candidates (events o) = map (fun v => name (fst v)) found
  /\ (outcome o = ok tt ->
      map fst (visits (events o)) = listed (events o)).
Proof.
  intros Ht o found.
  destruct (main_tallied options args w time_old Ht) as (_ & Hok & Hc & Hd).
  fold o in Hok, Hc, Hd. fold found in Hc, Hd.
  split; [exact Hd|]. split; [exact Hc|].
  intros Ho. apply map_fst_combine_same_length, Hok. now exists tt.
Qed.

End MainLoop.

(* ===================================================================== *)
(** * More of the tool on the scenario *)
(* ===================================================================== *)

(** X8 on the listing [a], [c], [b]: [a] is deleted, the run stops at
    [c] and [b] is not examined. *)
Lemma unparsed_key_stops_the_listing_at_c :
  let loop := fun keys =>
    for_each keys (@S3_cleanup_key _ Fake.ticking Fake.thirty_days false)
             Scenario.everything in
  loop ([Fake.a] ++ Scenario.c :: [Fake.b])%list
  = (events (loop [Fake.a]), final (loop [Fake.a]), raise ValueError).
Proof.
  exact (@unparsed_key_stops_the_listing _ Fake.ticking Fake.thirty_days
           false [Fake.a] [Fake.b] Scenario.c Scenario.everything ValueError
           eq_refl eq_refl).
Defined.

Example stopped_at_c :
  let o := for_each [Fake.a; Scenario.c; Fake.b]
             (@S3_cleanup_key _ Fake.ticking Fake.thirty_days false)
             Scenario.everything in
  deletes (events o) = [Fake.a]
  /\ List.length (nows (events o)) = 1%nat
  /\ store (final o) = [Fake.b; Scenario.c; Scenario.d].
Proof. vm_compute. repeat split. Qed.

(** X11 on three URIs: [tmp/] is cleaned up, [new/] raises at [c], and
    [old/] is not touched. *)
Lemma main_stops_at_new :
  let body := fun path =>
    @S3_cleanup _ Fake.ticking path Fake.thirty_days false ConfDefault in
  let before := for_each ["s3://bucket/tmp/"] body Scenario.everything in
  @main _ Fake.ticking default_options
    (["s3://bucket/tmp/"] ++ "s3://bucket/new/" :: ["s3://bucket/old/"])%list
    Scenario.everything
  = ((logging_setup default_options ++ events before
        ++ events (body "s3://bucket/new/" (final before)))%list,
     final (body "s3://bucket/new/" (final before)),
     raise ValueError).
Proof.
  exact (@main_stops_at_first_failure _ Fake.ticking default_options
           ["s3://bucket/tmp/"] ["s3://bucket/old/"] "s3://bucket/new/"
           Scenario.everything Fake.thirty_days ValueError
           eq_refl eq_refl eq_refl).
Defined.

Example old_is_not_touched :
  let o := @main _ Fake.ticking default_options
             ["s3://bucket/tmp/"; "s3://bucket/new/"; "s3://bucket/old/"]
             Scenario.everything in
  deletes (events o) = [Fake.a]
  /\ store (final o) = [Fake.b; Scenario.c; Scenario.d]
  /\ outcome o = raise ValueError.
Proof. vm_compute. repeat split. Qed.

(** X12 on the scenario. *)
Lemma main_test_is_read_only_on_scenario :
  read_only (@main _ Fake.ticking Scenario.test_options
               ["s3://bucket/tmp/"; "s3://bucket/old/"]).
Proof.
  exact (@main_test_is_read_only _ Fake.ticking Scenario.test_options
           ["s3://bucket/tmp/"; "s3://bucket/old/"] eq_refl).
Defined.

(** X13 with the default options: the threshold is 30 days. *)
Lemma main_accounts_by_default :
  let o := @main _ Fake.ticking default_options
             ["s3://bucket/tmp/"; "s3://bucket/old/"] Scenario.everything in
  let found := filter (@qualifies _ Fake.ticking Fake.thirty_days)
                      (visits (events o)) in
  deletes (events o) = (if test default_options then [] else map fst found)
  /\ candidates (events o) = map (fun v => name (fst v)) found
  /\ (outcome o = ok tt ->
      map fst (visits (events o)) = listed (events o)).
Proof.
  exact (@main_accounts _ Fake.ticking default_options
           ["s3://bucket/tmp/"; "s3://bucket/old/"] Scenario.everything
           Fake.thirty_days eq_refl).
Defined.

Example by_default_older_than_30_days :
  let o := @main _ Fake.ticking default_options
             ["s3://bucket/tmp/"; "s3://bucket/old/"] Scenario.everything in
  deletes (events o) = [Fake.a; Scenario.d]
  /\ store (final o) = [Fake.b; Scenario.c]
  /\ outcome o = ok tt.
Proof. vm_compute. repeat split. Qed.

(** X14 on a store that holds [b] alone, 10 days old. *)
Lemma run_without_deletes_is_dry_on_b :
  @S3_cleanup _ Fake.ticking Fake.glob Fake.thirty_days false ConfDefault
    (Fake.world [Fake.b])
  = @S3_cleanup _ Fake.ticking Fake.glob Fake.thirty_days true ConfDefault
      (Fake.world [Fake.b]).
Proof.
  exact (@run_without_deletes_is_dry _ Fake.ticking Fake.glob
           Fake.thirty_days ConfDefault (Fake.world [Fake.b]) eq_refl).
Defined.

Section Thresholds.

Context {Store : Type} {C : Collaborators Store}.

(** X15.  Raising the threshold never deletes more: of two thresholds
    given in the same unit, every object the larger one finds too old
    the smaller one finds too old as well, at the same examination. *)
Theorem larger_threshold_deletes_less (u : Unit) (n1 n2 : Z)
    (t1 t2 : timedelta) (now lm : datetime) :
  process_time (fmt_d n1 ++ suffix u) = ok t1 ->
  process_time (fmt_d n2 ++ suffix u) = ok t2 ->
  n1 <= n2 ->
  too_old t2 now lm = true ->
  too_old t1 now lm = true.
Proof.
  rewrite !process_time_suffix, !PyFacts.int_fmt_d. cbn [rbind].
  rewrite !duration_spec.
  destruct (in_range u n1); [|discriminate].
  destruct (in_range u n2); [|discriminate].
  intros [= <-] [= <-] Hn.
  rewrite !too_old_iff
    by (apply TdFacts.normalize_seconds || apply TdFacts.normalize_microseconds).
  rewrite !TdFacts.total_us_normalize.
  assert (0 < unit_us u) by (destruct u; reflexivity).
  nia.
Qed.

Lemma qualifies_elapsed (time_old : timedelta) (v : S3Key * datetime) :
  qualifies time_old v = true -> td_gt (elapsed v) time_old = true.
Proof.
  unfold qualifies, elapsed, too_old.
  now destruct (strptime_ISO8601 (last_modified (fst v))).
Qed.

(** X16.  Nothing is reported that is not older than the threshold:
    in every run of [S3_cleanup], the elapsed time of every [Deleting
    ...] record logged exceeds the threshold. *)
Theorem every_report_exceeds_the_threshold (glob_path : string)
    (time_old : timedelta) (dry_run : bool) (conf : ConfPath)
    (w : World Store) :
  Forall (exceeds time_old)
         (logs (events (S3_cleanup glob_path time_old dry_run conf w))).
Proof.
  destruct (runner_init (store w) conf) as [e|[]] eqn:Hr.
  { unfold S3_cleanup, EMRJobRunner, call, bind. rewrite Hr. constructor. }
  destruct (make_s3_conn (store w)) as [e|[]] eqn:Hc.
  { unfold S3_cleanup, EMRJobRunner, runner_make_s3_conn, call, bind.
    rewrite Hr, Hc. constructor. }
  destruct (S3_cleanup_accounted time_old dry_run glob_path conf w)
    as (_ & _ & Hg).
  cbn zeta in Hg. rewrite (Hg Hr Hc).
  constructor; [exact I|].
  apply Forall_map, Forall_forall. intros v Hv.
  apply filter_In in Hv as [_ Hq]. now apply qualifies_elapsed.
Qed.

Lemma deletes_listed (time_old : timedelta) (dry_run : bool) {A}
    (o : list Event * World Store * result A) :
  tallied time_old dry_run o -> incl (deletes (events o)) (listed (events o)).
Proof.
  intros (_ & _ & _ & Hd) k Hk. rewrite Hd in Hk.
  destruct dry_run; [destruct Hk|]. eapply found_listed, Hk.
Qed.

(** X17.  Nothing is deleted that was not listed: every key
    [S3_cleanup] or [main] calls [key.delete()] on is a key one of its
    listings produced. *)
Theorem only_listed_keys_are_deleted :
  (forall glob_path time_old dry_run conf w,
      let o := S3_cleanup glob_path time_old dry_run conf w in
      incl (deletes (events o)) (listed (events o)))
  /\ (forall options args w,
         let o := main options args w in
         incl (deletes (events o)) (listed (events o))).
Proof.
  split.
  - intros glob_path time_old dry_run conf w.
    apply (deletes_listed time_old dry_run), tallied_S3_cleanup.
  - intros options args w. cbn zeta.
    destruct (process_time (time options)) as [e|time_old] eqn:Ht.
    + rewrite main_unfold, Ht. destruct args as [|uri args].
      * intros k [].
      * cbn [events fst].
        rewrite (proj1 (deletes_logging_setup options)). intros k [].
    + apply (deletes_listed time_old (test options)).
      now apply main_tallied.
Qed.

End Thresholds.

(** X15 on ["30d"] and ["40d"], for an object 41 days old. *)
Lemma larger_threshold_deletes_less_example :
  too_old (mk_timedelta 30 0 0)
          (Fake.start + 41 * us_per_day) Fake.start = true.
Proof.
  exact (larger_threshold_deletes_less Days 30 40
           (mk_timedelta 30 0 0) (mk_timedelta 40 0 0)
           (Fake.start + 41 * us_per_day) Fake.start
           eq_refl eq_refl ltac:(lia) eq_refl).
Defined.
